(** * Auction engine and token/reputation ledger

    A shallow embedding of [internal/tokens]: the pricing and scoring
    functions, the account ledger ([InitializeTokens], [GetTokenBalance],
    [SpendTokens], [RefillTokens]), the bid recorder ([RecordBid]) and the
    auction round ([RunAuction]), over an explicit model of the two DynamoDB
    tables the package talks to.

    Conventions.
    - Go's [int64] values are [Z]; Go's [float64] is Rocq's primitive
      binary64 [float], every operation rounded on its own (round to nearest,
      ties to even), as the Go compiler emits it on amd64.
      The compiler may fuse [x*y + z] on other architectures; that is not
      modelled.
    - A DynamoDB table is a finite map from its key to the stored item.
      Numbers in the store have arbitrary precision; those the package reads
      back are taken to fit [int64], so that unmarshalling succeeds.
    - Every method of [Manager] is a function in the monad [M]: it threads
      the state of the world (both tables, the availability of the store, the
      clock and the KSUID generator) and returns either a value or an
      error. *)

From Stdlib Require Import ZArith Lia List Floats QArith Qround.
From stdpp Require Import base option list gmap strings pretty.

Open Scope Z_scope.

(** ** Numeric conversions *)

Module Conv.

(** [float64(n)] for an integer [n]: the nearest binary64 value. *)
Definition float64_of_int64 (n : Z) : float :=
  SF2Prim (binary_normalize prec emax n 0 false).

(** [int64(f)] for a float [f]: the fraction is discarded (truncation toward
    zero).  Go leaves the result unspecified when the value does not fit;
    amd64 yields the smallest [int64], which is what is returned here for
    values out of range, infinities and NaN. *)
Definition int64_of_float64 (f : float) : Z :=
  match Prim2SF f with
  | S754_zero _ => 0
  | S754_finite s m e =>
      let v := if 0 <=? e then Z.pos m * 2 ^ e else Z.pos m / 2 ^ (- e) in
      let z := if s then - v else v in
      if (- 2 ^ 63 <=? z) && (z <? 2 ^ 63) then z else - 2 ^ 63
  | _ => - 2 ^ 63
  end.

(** [int64] arithmetic wraps around. *)
Definition wrap64 (z : Z) : Z := (z + 2 ^ 63) mod 2 ^ 64 - 2 ^ 63.

End Conv.
Export Conv.

(** ** Constants and data ([tokens.go]) *)

Definition InitialTokenCount : Z := 1000.
Definition InitialReputationScore : Z := 100.

(** [costMap]: priority -> base cost.  Indexing a Go map with a key it does
    not hold yields the zero value. *)
Definition costMap : gmap Z Z :=
  list_to_map
    [(1, 1); (2, 1); (3, 1); (4, 5); (5, 5); (6, 5); (7, 7); (8, 7); (9, 7);
     (10, 10)].

Definition InitialPriorityUsage : gmap Z Z :=
  list_to_map
    [(1, 0); (2, 0); (3, 0); (4, 0); (5, 0); (6, 0); (7, 0); (8, 0); (9, 0);
     (10, 0)].

(** [m[k]] on a Go map of integers. *)
Definition index (m : gmap Z Z) (k : Z) : Z := default 0 (m !! k).

Record Bid := mkBid { TeamID : string; UserID : string; Priority : Z }.

(** The nil-able [*zap.Logger] of a [Manager]; [NewManager] leaves it nil. *)
Inductive Logger := ZapLogger.
Record Manager := mkManager { logger : option Logger }.
Definition NewManager : Manager := {| logger := None |}.

(** An item of the [tokens] table, keyed by [pk].  [token_balance] and
    [reputation_score] are written by every request that creates an item;
    [priority_usage] is [None] when the item has no such attribute (an item
    created by the [UpdateItem] of [RefillTokens]); the remaining attributes
    read as Go zero values when absent. *)
Record TokenDBRow := mkTokenDBRow {
  TokenBalance : Z;
  LastRefillTime : Z;
  ReputationScore : Z;
  PriorityUsage : option (gmap Z Z);
  Row_TeamID : string;
  CreatedAtMs : Z;
  UpdatedAtMs : Z
}.

Record BidRow := mkBidRow {
  Pk : string;
  Sk : string;
  Target : string;
  Bid_Priority : Z;
  Cost : Z;
  Score : float;
  Bid_CreatedAtMs : Z;
  Bid_UpdatedAtMs : Z
}.

(** ** Keys ([keys.go]) *)

Definition GetTokenPK (teamID : string) : string := "team#" +:+ teamID.
Definition GetBidPK (teamID : string) : string := "bid#" +:+ teamID.

(** ** Pricing and scoring *)

#[warnings="-inexact-float"]
Definition priceMultiplier (reputation : Z) : float :=
  let minMultiplier := 1.0%float in
  let maxMultiplier := 2.5%float in
  (minMultiplier
   + (maxMultiplier - minMultiplier) * (1 - float64_of_int64 reputation / 100))%float.

Definition computeBidcost (bid : Bid) (reputation : Z) : Z :=
  let cost :=
    (float64_of_int64 (index costMap (Priority bid)) * priceMultiplier reputation)%float in
  int64_of_float64 cost.

#[warnings="-inexact-float"]
Definition calculateScore (priority reputation : Z) : float :=
  let maxReputation := 100 in
  let normalizedPriority :=
    (float64_of_int64 (wrap64 (priority - 1)) / 9.0 * 100.0)%float in
  let normalizedReputation :=
    (float64_of_int64 reputation / float64_of_int64 maxReputation * 100.0)%float in
  (0.7 * normalizedPriority + 0.3 * normalizedReputation)%float.

(** ** The world: both tables and the environment *)

Record World := mkWorld {
  tokens : gmap string TokenDBRow;          (* table "tokens", key pk *)
  bids : gmap (string * string) BidRow;     (* table "bids", key (pk, sk) *)
  outage : list bool;   (* per upcoming store request: true = it fails *)
  clock : list Z;       (* upcoming readings of time.Now().UnixMilli() *)
  entropy : list string (* upcoming values of ksuid.New().String() *)
}.

Definition set_tokens (t : gmap string TokenDBRow) (w : World) : World :=
  mkWorld t (bids w) (outage w) (clock w) (entropy w).
Definition set_bids (b : gmap (string * string) BidRow) (w : World) : World :=
  mkWorld (tokens w) b (outage w) (clock w) (entropy w).
Definition set_outage (o : list bool) (w : World) : World :=
  mkWorld (tokens w) (bids w) o (clock w) (entropy w).
Definition set_clock (c : list Z) (w : World) : World :=
  mkWorld (tokens w) (bids w) (outage w) c (entropy w).
Definition set_entropy (e : list string) (w : World) : World :=
  mkWorld (tokens w) (bids w) (outage w) (clock w) e.

(** The store answers every upcoming request. *)
Definition available (w : World) : Prop := Forall (λ b, b = false) (outage w).

(** ** Errors *)

Inductive StoreError :=
  | Unavailable               (* the request did not reach the store *)
  | ConditionalCheckFailed    (* the ConditionExpression was false *)
  | ValidationException.      (* the update refers to a missing attribute *)

Inductive Error :=
  | ErrFetchBalance (cause : StoreError)     (* "error fetching token balance" *)
  | ErrTeamNotFound (teamID : string)        (* "team not found" *)
  | ErrInsufficientBalance (balance : Z)     (* "insufficient token balance" *)
  | ErrUpdateBalance (cause : StoreError)    (* "error updating token balance" *)
  | ErrUpdateReputation (cause : StoreError) (* "error updating reputation score" *)
  | ErrInitialize (teamID : string) (cause : StoreError)
  | ErrRefill (teamID : string) (cause : StoreError)
  | ErrNoWinner                              (* "auction had no winner" *)
  | PanicNilLogger.                          (* nil pointer dereference *)

(** The two ways a debit reports that the balance does not cover the cost:
    the check on the balance read beforehand, and the condition of the
    write itself. *)
Definition InsufficientBalance (e : Error) : Prop :=
  match e with
  | ErrInsufficientBalance _ | ErrUpdateBalance ConditionalCheckFailed => True
  | _ => False
  end.

(** ** The monad *)

Definition M (E A : Type) : Type := World → (E + A) * World.

Definition ret {E A} (a : A) : M E A := λ w, (inr a, w).
Definition throw {E A} (e : E) : M E A := λ w, (inl e, w).
Definition bind {E A B} (k : A → M E B) (m : M E A) : M E B :=
  λ w, match m w with
       | (inr a, w') => k a w'
       | (inl e, w') => (inl e, w')
       end.
#[global] Instance M_ret {E} : MRet (M E) := @ret E.
#[global] Instance M_bind {E} : MBind (M E) := @bind E.

(** [v, err := m] : the error becomes a value. *)
Definition catch {E E' A} (m : M E A) : M E' (E + A) :=
  λ w, let (r, w') := m w in (inr r, w').
(** [fmt.Errorf("...: %v", err)] *)
Definition wrap {E E' A} (f : E → E') (m : M E A) : M E' A :=
  λ w, match m w with
       | (inr a, w') => (inr a, w')
       | (inl e, w') => (inl (f e), w')
       end.

(** ** Environment *)

Definition time_Now_UnixMilli {E} : M E Z :=
  λ w, match clock w with
       | t :: c => (inr t, set_clock c w)
       | [] => (inr 0, w)
       end.

Definition ksuid_New {E} : M E string :=
  λ w, match entropy w with
       | s :: e => (inr s, set_entropy e w)
       | [] => (inr "000000000000000000000000000", w)
       end.

(** ** The store: the requests the package sends to DynamoDB

    The service itself is outside the package.  Each request below is the
    request as the package writes it (table, key, update and condition
    expressions, requested return values), given the meaning of the store
    contract the specification relies on: a conditional create that fails
    when the key exists, a read, an atomic conditional update that answers
    with the updated record, an unconditional update that creates the item
    when the key is new, and an append.  Every request first has to reach
    the store. *)

Definition request : M StoreError unit :=
  λ w, match outage w with
       | true :: o => (inl Unavailable, set_outage o w)
       | false :: o => (inr (), set_outage o w)
       | [] => (inr (), w)
       end.

(** The three SET expressions on an item of "tokens". *)
Definition spend_row (row : TokenDBRow) (amount : Z) (usage' : gmap Z Z) : TokenDBRow :=
  mkTokenDBRow (TokenBalance row - amount) (LastRefillTime row) (ReputationScore row)
    (Some usage') (Row_TeamID row) (CreatedAtMs row) (UpdatedAtMs row).

Definition penalise_row (row : TokenDBRow) (decrease : Z) : TokenDBRow :=
  mkTokenDBRow (TokenBalance row) (LastRefillTime row) (ReputationScore row - decrease)
    (PriorityUsage row) (Row_TeamID row) (CreatedAtMs row) (UpdatedAtMs row).

Definition refill_row (row : option TokenDBRow) (initialBalance initialReputation : Z)
  : TokenDBRow :=
  match row with
  | Some row =>
      mkTokenDBRow initialBalance (LastRefillTime row) initialReputation
        (PriorityUsage row) (Row_TeamID row) (CreatedAtMs row) (UpdatedAtMs row)
  | None => mkTokenDBRow initialBalance 0 initialReputation None "" 0 0
  end.

(** [if_not_exists(priority_usage.#usage_key, :start) + :incr] stored under
    [usage_key]. *)
Definition bump (usage : gmap Z Z) (usage_key : Z) : gmap Z Z :=
  <[usage_key := index usage usage_key + 1]> usage.

(** One atomic step of the store on the tables. *)
Definition atomically {E A} (f : World → (E + A) * World) : M E A := f.

Module dynamodb.

(** [GetItem] on "tokens". *)
Definition GetItem (pk : string) : M StoreError (option TokenDBRow) :=
  request;; atomically (λ w, (inr (tokens w !! pk), w)).

(** [PutItem] on "tokens" with [attribute_not_exists(pk)]. *)
Definition PutItem_not_exists (pk : string) (item : TokenDBRow) : M StoreError unit :=
  request;;
  atomically (λ w, match tokens w !! pk with
       | Some _ => (inl ConditionalCheckFailed, w)
       | None => (inr (), set_tokens (<[pk := item]> (tokens w)) w)
       end).

(** [PutItem] on "bids": unconditional, replaces an item with the same key. *)
Definition PutItem_bid (br : BidRow) : M StoreError unit :=
  request;; atomically (λ w, (inr (), set_bids (<[(Pk br, Sk br) := br]> (bids w)) w)).

(** The conditional update of [SpendTokens]:
      SET token_balance = token_balance - :amount,
          priority_usage.#usage_key =
            if_not_exists(priority_usage.#usage_key, :start) + :incr
      IF  token_balance >= :amount
    with :incr = 1 and :start = 0, one atomic step of the store.  The
    request asks for the updated values; the answer is the one of the store
    contract, the updated record, of which the package reads the new
    [token_balance] and the [priority_usage] map. *)
Definition UpdateItem_spend (pk : string) (amount usage_key : Z)
  : M StoreError (Z * gmap Z Z) :=
  request;;
  atomically (λ w, match tokens w !! pk with
       | None => (inl ConditionalCheckFailed, w)
       | Some row =>
           if amount <=? TokenBalance row then
             match PriorityUsage row with
             | None => (inl ValidationException, w)
             | Some usage =>
                 let usage' := bump usage usage_key in
                 let row' := spend_row row amount usage' in
                 (inr (TokenBalance row', usage'), set_tokens (<[pk := row']> (tokens w)) w)
             end
           else (inl ConditionalCheckFailed, w)
       end).

(** SET reputation_score = reputation_score - :decrease *)
Definition UpdateItem_reputation (pk : string) (decrease : Z) : M StoreError unit :=
  request;;
  atomically (λ w, match tokens w !! pk with
       | None => (inl ValidationException, w)
       | Some row =>
           (inr (), set_tokens (<[pk := penalise_row row decrease]> (tokens w)) w)
       end).

(** SET token_balance = :initialBalance, reputation_score = :initialReputation
    without a condition: [UpdateItem] adds the item when the key is new. *)
Definition UpdateItem_refill (pk : string) (initialBalance initialReputation : Z)
  : M StoreError unit :=
  request;;
  atomically (λ w,
    let row' := refill_row (tokens w !! pk) initialBalance initialReputation in
    (inr (), set_tokens (<[pk := row']> (tokens w)) w)).

End dynamodb.

(** ** The ledger and the auction ([Manager] methods) *)

(** Initialize tokens for all teams *)
Fixpoint InitializeTokens (teams : list string) : M Error unit :=
  match teams with
  | [] => mret ()
  | teamID :: teams' =>
      now ← time_Now_UnixMilli;
      let item :=
        {| TokenBalance := InitialTokenCount;
           LastRefillTime := now;
           ReputationScore := InitialReputationScore;
           PriorityUsage := Some InitialPriorityUsage;
           Row_TeamID := teamID;
           CreatedAtMs := now;
           UpdatedAtMs := now |} in
      err ← catch (dynamodb.PutItem_not_exists (GetTokenPK teamID) item);
      match err with
      | inr _ | inl ConditionalCheckFailed => InitializeTokens teams'
      | inl cause => throw (ErrInitialize teamID cause)
      end
  end.

(** Get token balance for a team *)
Definition GetTokenBalance (teamID : string) : M Error (Z * Z) :=
  result ← wrap ErrFetchBalance (dynamodb.GetItem (GetTokenPK teamID));
  match result with
  | None => throw (ErrTeamNotFound teamID)
  | Some row => mret (TokenBalance row, ReputationScore row)
  end.

(** [SpendTokens] from the point where [balance] and [reputation] have been
    read: the check, the conditional write and the reputation penalty. *)
Definition SpendTokens_settle (bid : Bid) (balance reputation : Z) : M Error Z :=
  let bidCost := computeBidcost bid reputation in
  if balance <? bidCost then throw (ErrInsufficientBalance balance)
  else
    '(newBalance, priorityUsage) ←
      wrap ErrUpdateBalance
        (dynamodb.UpdateItem_spend (GetTokenPK (TeamID bid)) bidCost (Priority bid));
    (if 5 <? index priorityUsage 10
     then wrap ErrUpdateReputation
            (dynamodb.UpdateItem_reputation (GetTokenPK (TeamID bid)) 10)
     else mret ());;
    mret newBalance.

(** Spend tokens *)
Definition SpendTokens (bid : Bid) : M Error Z :=
  '(balance, reputation) ← GetTokenBalance (TeamID bid);
  SpendTokens_settle bid balance reputation.

Definition RecordBid (bid : Bid) (cost : Z) (score : float) : M Error unit :=
  nowMilli ← time_Now_UnixMilli;
  id ← ksuid_New;
  let bidID := "bid_" +:+ id in
  let br :=
    {| Pk := GetBidPK (TeamID bid);
       Sk := String.concat "#" [TeamID bid; bidID; pretty nowMilli];
       Target := UserID bid;
       Bid_Priority := Priority bid;
       Cost := cost;
       Score := score;
       Bid_CreatedAtMs := nowMilli;
       Bid_UpdatedAtMs := nowMilli |} in
  (* _, err = PutItem(...): err is assigned and never read *)
  _err ← catch (dynamodb.PutItem_bid br);
  mret ().

(** Which variable [&bid] points to inside [for _, bid := range bids]: one
    variable for the whole loop (language versions before 1.22, selected by
    the module's go.mod) or a fresh one per iteration. *)
Inductive LoopVar := SharedLoopVar | PerIterationLoopVar.

(** The local variables of [RunAuction]; a nil [winningBid] is [None]. *)
Record Round := mkRound {
  winningBid : option Bid;
  winningBidCost : Z;
  maxScore : float
}.

Definition Round_zero : Round := mkRound None 0 0%float.

(** The body of the loop of [RunAuction] for one bid. *)
Definition RunAuction_bid (tm : Manager) (bid : Bid) (st : Round) : M Error Round :=
  '(balance, reputation) ← GetTokenBalance (TeamID bid);
  let bidScore := calculateScore (Priority bid) reputation in
  let bidCost := computeBidcost bid reputation in
  RecordBid bid bidCost bidScore;;
  if balance <? bidCost then
    match logger tm with
    | None => throw PanicNilLogger
    | Some _ => mret st
    end
  else if (maxScore st <? bidScore)%float then mret (mkRound (Some bid) bidCost bidScore)
  else mret st.

Fixpoint RunAuction_loop (tm : Manager) (bids : list Bid) (st : Round) : M Error Round :=
  match bids with
  | [] => mret st
  | bid :: bids' => st' ← RunAuction_bid tm bid st; RunAuction_loop tm bids' st'
  end.

(** Simulate an auction for a user where teams bid tokens *)
Definition RunAuction (lv : LoopVar) (tm : Manager) (bids : list Bid) : M Error string :=
  st ← RunAuction_loop tm bids Round_zero;
  match winningBid st with
  | None => throw ErrNoWinner
  | Some chosen =>
      (* *winningBid: with a shared loop variable the pointer reads the
         value the loop assigned last *)
      let winner :=
        match lv with
        | PerIterationLoopVar => chosen
        | SharedLoopVar => List.last bids chosen
        end in
      SpendTokens winner;;
      mret (TeamID winner)
  end.

(** Refill tokens for all teams *)
Fixpoint RefillTokens (teams : list string) : M Error unit :=
  match teams with
  | [] => mret ()
  | teamID :: teams' =>
      wrap (ErrRefill teamID)
        (dynamodb.UpdateItem_refill teamID InitialTokenCount InitialReputationScore);;
      RefillTokens teams'
  end.

(** * Vocabulary of the statements *)

(** Checking a property on a range of integers, and on a grid of priorities
    and reputations, by evaluation. *)
Fixpoint check_from (f : Z → bool) (lo : Z) (n : nat) : bool :=
  match n with
  | O => true
  | S n' => f lo && check_from f (lo + 1) n'
  end.

Definition check_range (f : Z → bool) (lo hi : Z) : bool :=
  check_from f lo (Z.to_nat (hi + 1 - lo)).

Definition check_grid (f : Z → Z → bool) (plo phi lo hi : Z) : bool :=
  check_range (λ p, check_range (f p) lo hi) plo phi.

(** The price depends on the bid through its priority only. *)
Definition price (priority reputation : Z) : Z :=
  computeBidcost (mkBid "" "" priority) reputation.

(** The pricing rule in the words of the specification, over the rationals:
    tiers 1-3 cost 1, 4-6 cost 5, 7-9 cost 7, 10 costs 10, and the cost is
    floor(baseCost * (1.0 + 1.5 * (1 - reputation/100))). *)
Definition spec_baseCost (priority : Z) : Z :=
  if (1 <=? priority) && (priority <=? 3) then 1
  else if (4 <=? priority) && (priority <=? 6) then 5
  else if (7 <=? priority) && (priority <=? 9) then 7
  else if priority =? 10 then 10
  else 0.

Definition spec_cost (priority reputation : Z) : Z :=
  Qfloor (inject_Z (spec_baseCost priority)
          * (1 + (3 # 2) * (1 - inject_Z reputation / 100)))%Q.

Definition monotone_step (p r : Z) : bool := price p (r + 1) <=? price p r.

(** Non-negative and at most one token below the specified floor. *)
Definition near_spec (p r : Z) : bool :=
  let c := price p r in
  let s := spec_cost p r in
  (0 <=? c) && (s - 1 <=? c) && (c <=? s).

(** Equal to the specified floor, the pair (10, 80) left aside. *)
Definition meets_spec (p r : Z) : bool :=
  ((p =? 10) && (r =? 80)) || (price p r =? spec_cost p r).

(** The account of a team: the item of "tokens" under the team's key. *)
Definition account (w : World) (teamID : string) : option TokenDBRow :=
  tokens w !! GetTokenPK teamID.

(** What [SpendTokens_settle] does, case by case: the answer and the table
    "tokens" it leaves behind, from the values [balance] and [reputation]
    read earlier and the world [w] the write meets. *)
Inductive settled (bid : Bid) (balance reputation : Z) (w : World)
  : Error + Z → gmap string TokenDBRow → Prop :=
  | settled_short_read :
      balance < computeBidcost bid reputation →
      settled bid balance reputation w (inl (ErrInsufficientBalance balance)) (tokens w)
  | settled_unreachable o :
      computeBidcost bid reputation ≤ balance →
      outage w = true :: o →
      settled bid balance reputation w (inl (ErrUpdateBalance Unavailable)) (tokens w)
  | settled_no_item :
      computeBidcost bid reputation ≤ balance →
      account w (TeamID bid) = None →
      settled bid balance reputation w
        (inl (ErrUpdateBalance ConditionalCheckFailed)) (tokens w)
  | settled_short_write row :
      computeBidcost bid reputation ≤ balance →
      account w (TeamID bid) = Some row →
      TokenBalance row < computeBidcost bid reputation →
      settled bid balance reputation w
        (inl (ErrUpdateBalance ConditionalCheckFailed)) (tokens w)
  | settled_no_usage row :
      computeBidcost bid reputation ≤ balance →
      account w (TeamID bid) = Some row →
      computeBidcost bid reputation ≤ TokenBalance row →
      PriorityUsage row = None →
      settled bid balance reputation w
        (inl (ErrUpdateBalance ValidationException)) (tokens w)
  | settled_debit row usage :
      let cost := computeBidcost bid reputation in
      let usage' := bump usage (Priority bid) in
      cost ≤ balance →
      head (outage w) ≠ Some true →
      account w (TeamID bid) = Some row →
      cost ≤ TokenBalance row →
      PriorityUsage row = Some usage →
      index usage' 10 ≤ 5 →
      settled bid balance reputation w (inr (TokenBalance row - cost))
        (<[GetTokenPK (TeamID bid) := spend_row row cost usage']> (tokens w))
  | settled_penalty_lost row usage o :
      let cost := computeBidcost bid reputation in
      let usage' := bump usage (Priority bid) in
      cost ≤ balance →
      account w (TeamID bid) = Some row →
      cost ≤ TokenBalance row →
      PriorityUsage row = Some usage →
      5 < index usage' 10 →
      tail (outage w) = true :: o →
      settled bid balance reputation w (inl (ErrUpdateReputation Unavailable))
        (<[GetTokenPK (TeamID bid) := spend_row row cost usage']> (tokens w))
  | settled_penalty row usage :
      let cost := computeBidcost bid reputation in
      let usage' := bump usage (Priority bid) in
      cost ≤ balance →
      head (outage w) ≠ Some true →
      head (tail (outage w)) ≠ Some true →
      account w (TeamID bid) = Some row →
      cost ≤ TokenBalance row →
      PriorityUsage row = Some usage →
      5 < index usage' 10 →
      settled bid balance reputation w (inr (TokenBalance row - cost))
        (<[GetTokenPK (TeamID bid) := penalise_row (spend_row row cost usage') 10]>
           (tokens w)).

(** The account [row'] is the account [row] after a debit of [cost] at the
    priority of [bid]: [cost] was covered, the balance is exactly [cost]
    lower and not negative, the counter of that priority is one higher and
    every other counter is as it was. *)
Definition debited (bid : Bid) (cost : Z) (row row' : TokenDBRow) : Prop :=
  cost ≤ TokenBalance row
  ∧ TokenBalance row' = TokenBalance row - cost
  ∧ 0 ≤ TokenBalance row'
  ∧ ∃ usage usage',
      PriorityUsage row = Some usage ∧ PriorityUsage row' = Some usage'
      ∧ index usage' (Priority bid) = index usage (Priority bid) + 1
      ∧ ∀ k, k ≠ Priority bid → usage' !! k = usage !! k.

(** No item of "tokens" holds a reputation above the initial one. *)
Definition reputation_bounded (T : gmap string TokenDBRow) : Prop :=
  ∀ pk row, T !! pk = Some row → ReputationScore row ≤ InitialReputationScore.

(** A computation keeps the bound on reputations. *)
Definition keeps {E A} (m : M E A) : Prop :=
  ∀ w r w', m w = (r, w') →
    reputation_bounded (tokens w) → reputation_bounded (tokens w').

(** The exported methods of [Manager], and the worlds they can produce
    from empty tables; between two calls the environment (availability of
    the store, clock, identifiers) may be anything. *)
Inductive Call :=
  | CallInitializeTokens (teams : list string)
  | CallSpendTokens (bid : Bid)
  | CallRefillTokens (teams : list string)
  | CallRunAuction (lv : LoopVar) (tm : Manager) (bids : list Bid)
  | CallGetTokenBalance (teamID : string)
  | CallRecordBid (bid : Bid) (cost : Z) (score : float).

Definition perform (c : Call) (w : World) : World :=
  match c with
  | CallInitializeTokens teams => snd (InitializeTokens teams w)
  | CallSpendTokens bid => snd (SpendTokens bid w)
  | CallRefillTokens teams => snd (RefillTokens teams w)
  | CallRunAuction lv tm bids => snd (RunAuction lv tm bids w)
  | CallGetTokenBalance teamID => snd (GetTokenBalance teamID w)
  | CallRecordBid bid cost score => snd (RecordBid bid cost score w)
  end.

Inductive reachable : World → Prop :=
  | reachable_start o c e : reachable (mkWorld ∅ ∅ o c e)
  | reachable_call call w : reachable w → reachable (perform call w)
  | reachable_env w o c e :
      reachable w → reachable (mkWorld (tokens w) (bids w) o c e).

(** The number of debits counted for a team at a priority. *)
Definition usage_count (w : World) (teamID : string) (priority : Z) : option Z :=
  match account w teamID with
  | Some row =>
      match PriorityUsage row with
      | Some usage => Some (index usage priority)
      | None => None
      end
  | None => None
  end.

(** ** Example worlds *)

Definition empty_world : World := mkWorld ∅ ∅ [] [] [].

(** The world a call leaves behind. *)
Definition after {A} (m : M Error A) (w : World) : World := snd (m w).

(** Team "A" and team "B" freshly initialised. *)
Definition ledger_A : World := after (InitializeTokens ["A"]) empty_world.
Definition ledger_AB : World := after (InitializeTokens ["A"; "B"]) empty_world.

(** [n] debits in a row for the same bid. *)
Definition spend_times (n : nat) (bid : Bid) (w : World) : World :=
  Nat.iter n (after (SpendTokens bid)) w.

(** The world once a request has been answered by the store. *)
Definition answered (w : World) : World := set_outage (tail (outage w)) w.

(** [br] is an audit record of [bid] with the given cost and score. *)
Definition records (br : BidRow) (bid : Bid) (cost : Z) (score : float) : Prop :=
  Pk br = GetBidPK (TeamID bid) ∧ Target br = UserID bid
  ∧ Bid_Priority br = Priority bid ∧ Cost br = cost ∧ Score br = score.

(** * Further vocabulary: scoring, ledger and audit trail *)

(** The score rises from one priority to the next, and from one reputation
    to the next. *)
Definition score_step_priority (p r : Z) : bool :=
  (calculateScore p r <? calculateScore (p + 1) r)%float.
Definition score_step_reputation (p r : Z) : bool :=
  (calculateScore p r <? calculateScore p (r + 1))%float.

(** A freshly created account of [teamID]: the initial balance and
    reputation, every counter of the initial table at zero, and the three
    timestamps equal. *)
Definition fresh_account (row : TokenDBRow) (teamID : string) : Prop :=
  TokenBalance row = InitialTokenCount
  ∧ ReputationScore row = InitialReputationScore
  ∧ PriorityUsage row = Some InitialPriorityUsage
  ∧ Row_TeamID row = teamID
  ∧ LastRefillTime row = CreatedAtMs row ∧ UpdatedAtMs row = CreatedAtMs row.

(** How one call can change one item of "tokens": not at all, by creating a
    fresh account, by a refill, by a debit, or by a debit followed by the
    reputation penalty. *)
Inductive item_step : option TokenDBRow → option TokenDBRow → Prop :=
  | item_same o : item_step o o
  | item_created row teamID :
      fresh_account row teamID → item_step None (Some row)
  | item_refilled o :
      item_step o (Some (refill_row o InitialTokenCount InitialReputationScore))
  | item_spent row cost usage usage_key :
      PriorityUsage row = Some usage → cost ≤ TokenBalance row →
      item_step (Some row) (Some (spend_row row cost (bump usage usage_key)))
  | item_penalised row cost usage usage_key :
      PriorityUsage row = Some usage → cost ≤ TokenBalance row →
      5 < index (bump usage usage_key) 10 →
      item_step (Some row)
        (Some (penalise_row (spend_row row cost (bump usage usage_key)) 10)).

(** An item in good order: the balance is not negative, no counter is
    negative, and the reputation is the initial one unless the counter of
    priority 10 has passed 5. *)
Definition row_sound (row : TokenDBRow) : Prop :=
  0 ≤ TokenBalance row
  ∧ match PriorityUsage row with
    | Some usage =>
        (∀ k, 0 ≤ index usage k)
        ∧ (ReputationScore row < InitialReputationScore → 5 < index usage 10)
    | None => ReputationScore row = InitialReputationScore
    end.

(** A round against the ledger [T]: the bid of an existing team that can pay
    its price is eligible; [score_of] and [cost_of] are the score and the
    price the round computes for a bid. *)
Definition eligible (T : gmap string TokenDBRow) (bid : Bid) : Prop :=
  ∃ row, T !! GetTokenPK (TeamID bid) = Some row
         ∧ computeBidcost bid (ReputationScore row) ≤ TokenBalance row.

Definition score_of (T : gmap string TokenDBRow) (bid : Bid) : float :=
  match T !! GetTokenPK (TeamID bid) with
  | Some row => calculateScore (Priority bid) (ReputationScore row)
  | None => 0%float
  end.

Definition cost_of (T : gmap string TokenDBRow) (bid : Bid) : Z :=
  match T !! GetTokenPK (TeamID bid) with
  | Some row => computeBidcost bid (ReputationScore row)
  | None => 0
  end.

(** A float that is not NaN. *)
Definition is_number (x : float) : Prop := (x =? x)%float = true.

Definition score_is_number (p r : Z) : bool :=
  (calculateScore p r =? calculateScore p r)%float.

(** * Properties *)

(** ** Checking a property on a range of integers by evaluation *)

Lemma check_from_sound (f : Z → bool) n lo r :
  check_from f lo n = true → lo ≤ r < lo + Z.of_nat n → f r = true.
Proof.
  revert lo. induction n as [|n IH]; intros lo Hall Hr; [lia|].
  simpl in Hall. apply andb_prop in Hall as [Hlo Hall].
  destruct (decide (r = lo)) as [->|Hne]; [exact Hlo|].
  apply (IH (lo + 1)); [exact Hall|lia].
Qed.

Lemma check_range_sound (f : Z → bool) lo hi r :
  check_range f lo hi = true → lo ≤ r ≤ hi → f r = true.
Proof.
  unfold check_range. intros Hall Hr.
  apply (check_from_sound f _ lo r Hall). lia.
Qed.

Lemma check_grid_sound (f : Z → Z → bool) plo phi lo hi p r :
  check_grid f plo phi lo hi = true →
  plo ≤ p ≤ phi → lo ≤ r ≤ hi → f p r = true.
Proof.
  unfold check_grid. intros Hall Hp Hr.
  apply (check_range_sound (f p) lo hi); [|exact Hr].
  exact (check_range_sound _ plo phi p Hall Hp).
Qed.

(** ** Pricing *)

Lemma computeBidcost_price bid reputation :
  computeBidcost bid reputation = price (Priority bid) reputation.
Proof. reflexivity. Qed.

Lemma costMap_tiers p : 1 ≤ p ≤ 10 → index costMap p = spec_baseCost p.
Proof.
  intros Hp.
  assert (p = 1 ∨ p = 2 ∨ p = 3 ∨ p = 4 ∨ p = 5 ∨ p = 6 ∨ p = 7 ∨ p = 8
          ∨ p = 9 ∨ p = 10) as Hcases by lia.
  repeat (destruct Hcases as [-> | Hcases]; [reflexivity|]).
  subst p. reflexivity.
Qed.

(** A priority outside the table has base cost zero. *)
Lemma costMap_outside p : ¬ (1 ≤ p ≤ 10) → index costMap p = 0.
Proof.
  intros Hp. unfold index, costMap. cbn [list_to_map foldr fst snd].
  repeat (rewrite lookup_insert_ne by lia). rewrite lookup_empty. reflexivity.
Qed.

Lemma monotone_steps : check_grid monotone_step 1 10 0 99 = true.
Proof. vm_compute. reflexivity. Qed.

Lemma price_step p r :
  1 ≤ p ≤ 10 → 0 ≤ r < 100 → price p (r + 1) ≤ price p r.
Proof.
  intros Hp Hr. apply Z.leb_le.
  apply (check_grid_sound monotone_step 1 10 0 99); [exact monotone_steps|lia|lia].
Qed.

Lemma price_antitone p r1 r2 :
  1 ≤ p ≤ 10 → 0 ≤ r1 → r1 ≤ r2 → r2 ≤ 100 → price p r2 ≤ price p r1.
Proof.
  intros Hp H0 H12 H100.
  assert (∀ n : nat, r1 + Z.of_nat n ≤ 100 → price p (r1 + Z.of_nat n) ≤ price p r1)
    as Hind.
  { induction n as [|n IH]; intros Hn.
    - rewrite Z.add_0_r. lia.
    - etrans; [|apply IH; lia].
      replace (r1 + Z.of_nat (S n)) with (r1 + Z.of_nat n + 1) by lia.
      apply price_step; lia. }
  specialize (Hind (Z.to_nat (r2 - r1))).
  rewrite Z2Nat.id in Hind by lia.
  replace (r1 + (r2 - r1)) with r2 in Hind by lia. apply Hind. lia.
Qed.

(** C9: for every priority in 1-10 and every reputation r in [0,100],
    price(priority, 100) <= price(priority, r) <= price(priority, 0); more
    generally the price never increases when the reputation grows within
    [0,100]. *)
Theorem price_monotone_in_reputation (bid : Bid) (r : Z) :
  1 ≤ Priority bid ≤ 10 → 0 ≤ r ≤ 100 →
  (computeBidcost bid 100 ≤ computeBidcost bid r
   ∧ computeBidcost bid r ≤ computeBidcost bid 0)
  ∧ ∀ r', r ≤ r' ≤ 100 → computeBidcost bid r' ≤ computeBidcost bid r.
Proof.
  intros Hp Hr. rewrite !computeBidcost_price.
  split; [split|]; [| |intros r' Hr'; rewrite computeBidcost_price];
    apply price_antitone; lia.
Qed.

Lemma price_monotone_in_reputation_witness :
  let bid := mkBid "A" "u" 10 in
  (1 ≤ Priority bid ≤ 10 ∧ 0 ≤ 80 ≤ 100)
  ∧ (computeBidcost bid 100 ≤ computeBidcost bid 80
     ∧ computeBidcost bid 80 ≤ computeBidcost bid 0)
  ∧ computeBidcost bid 90 ≤ computeBidcost bid 80.
Proof.
  intros bid.
  assert (1 ≤ Priority bid ≤ 10) as Hp by (simpl; lia).
  assert (0 ≤ 80 ≤ 100) as Hr by lia.
  destruct (price_monotone_in_reputation bid 80 Hp Hr) as [Hbounds Hmono].
  split; [split; assumption|]. split; [exact Hbounds|]. apply Hmono. lia.
Defined.

Lemma near_spec_checked : check_grid near_spec 1 10 (-10000) 166 = true.
Proof. vm_compute. reflexivity. Qed.

Lemma meets_spec_checked : check_grid meets_spec 1 10 0 100 = true.
Proof. vm_compute. reflexivity. Qed.

(** C8 as stated fails: for the priority-10 bid the price at reputation 200
    is -5, a negative cost, and the price at reputation 80 is 12 where
    floor(10 * (1.0 + 1.5 * (1 - 80/100))) is 13. *)
Lemma price_not_spec_cost :
  let bid := mkBid "A" "u" 10 in
  1 ≤ Priority bid ≤ 10
  ∧ ¬ (0 ≤ computeBidcost bid 200)
  ∧ computeBidcost bid 80 ≠ spec_cost (Priority bid) 80.
Proof.
  intros bid. split; [simpl; lia|]. split.
  - assert (computeBidcost bid 200 = -5) as -> by (vm_compute; reflexivity). lia.
  - assert (computeBidcost bid 80 = 12) as -> by (vm_compute; reflexivity).
    assert (spec_cost (Priority bid) 80 = 13) as -> by (vm_compute; reflexivity).
    lia.
Qed.

(** C8, amended: for every priority in 1-10 the base cost is 1 for 1-3, 5
    for 4-6, 7 for 7-9 and 10 for 10; for every reputation from -10000 to 166
    the price is a non-negative integer, equal to
    floor(baseCost * (1.0 + 1.5 * (1 - reputation/100))) or one less; for
    every reputation in [0,100], the pair (priority 10, reputation 80)
    excepted, it is equal to that floor. *)
Theorem price_close_to_spec (bid : Bid) (r : Z) :
  1 ≤ Priority bid ≤ 10 →
  index costMap (Priority bid) = spec_baseCost (Priority bid)
  ∧ (-10000 ≤ r ≤ 166 →
       0 ≤ computeBidcost bid r
       ∧ spec_cost (Priority bid) r - 1 ≤ computeBidcost bid r
       ∧ computeBidcost bid r ≤ spec_cost (Priority bid) r)
  ∧ (0 ≤ r ≤ 100 → ¬ (Priority bid = 10 ∧ r = 80) →
       computeBidcost bid r = spec_cost (Priority bid) r).
Proof.
  intros Hp. rewrite computeBidcost_price. split; [|split].
  - apply costMap_tiers, Hp.
  - intros Hr.
    pose proof (check_grid_sound near_spec 1 10 (-10000) 166 (Priority bid) r
                  near_spec_checked ltac:(lia) ltac:(lia)) as Hc.
    unfold near_spec in Hc. cbv zeta in Hc.
    apply andb_prop in Hc as [Hc H3]. apply andb_prop in Hc as [H1 H2].
    apply Z.leb_le in H1, H2, H3. auto.
  - intros Hr Hne.
    pose proof (check_grid_sound meets_spec 1 10 0 100 (Priority bid) r
                  meets_spec_checked ltac:(lia) ltac:(lia)) as Hc.
    unfold meets_spec in Hc. apply orb_prop in Hc as [Hc|Hc].
    + apply andb_prop in Hc as [H1 H2]. apply Z.eqb_eq in H1, H2. tauto.
    + apply Z.eqb_eq in Hc. exact Hc.
Qed.

Lemma price_close_to_spec_witness :
  let bid := mkBid "A" "u" 7 in
  1 ≤ Priority bid ≤ 10
  ∧ index costMap 7 = 7
  ∧ 0 ≤ computeBidcost bid 50
  ∧ computeBidcost bid 50 = spec_cost 7 50.
Proof.
  intros bid.
  assert (1 ≤ Priority bid ≤ 10) as Hp by (simpl; lia).
  destruct (price_close_to_spec bid 50 Hp) as (Hbase & Hnear & Hexact).
  split; [exact Hp|]. split; [exact Hbase|]. split.
  - apply Hnear. lia.
  - apply Hexact; [lia|]. simpl. lia.
Defined.

(** ** The store *)

Lemma available_nil w : outage w = [] → available w.
Proof. unfold available. intros ->. constructor. Qed.

Lemma available_head w : available w → head (outage w) ≠ Some true.
Proof.
  unfold available. destruct (outage w) as [|b o]; [discriminate|].
  intros H. apply Forall_cons in H as [-> _]. discriminate.
Qed.

Lemma available_tail w o : available w → tail (outage w) ≠ true :: o.
Proof.
  unfold available. destruct (outage w) as [|b [|b' o']]; simpl; try discriminate.
  intros H. apply Forall_cons in H as [_ H]. apply Forall_cons in H as [-> _].
  discriminate.
Qed.

(** A request either fails for want of a connection, or goes through; either
    way it consumes one entry of [outage] and nothing else. *)
Lemma request_spec w :
  (∃ o, outage w = true :: o ∧ request w = (inl Unavailable, set_outage o w))
  ∨ (head (outage w) ≠ Some true
     ∧ request w = (inr (), set_outage (tail (outage w)) w)).
Proof.
  unfold request. destruct w as [t b o c e]. simpl.
  destruct o as [|[|] o]; simpl; unfold set_outage; simpl.
  - right. split; [discriminate|reflexivity].
  - left. eauto.
  - right. split; [discriminate|reflexivity].
Qed.

Ltac world_simpl :=
  cbn [tokens bids outage clock entropy
       set_tokens set_bids set_outage set_clock set_entropy] in *.

Ltac step := cbv beta iota zeta; world_simpl.

Ltac run_request w :=
  let o := fresh "o" in
  let Hout := fresh "Hout" in
  let Hreq := fresh "Hreq" in
  destruct (request_spec w) as [(o & Hout & Hreq)|[Hout Hreq]];
  rewrite Hreq; clear Hreq; step.

Ltac unfold_monad :=
  unfold mbind, M_bind, bind, mret, M_ret, ret, throw, wrap, catch, atomically.

(** ** The debit *)

Lemma SpendTokens_settle_settled bid balance reputation w r w' :
  SpendTokens_settle bid balance reputation w = (r, w') →
  settled bid balance reputation w r (tokens w') ∧ bids w' = bids w.
Proof.
  unfold SpendTokens_settle.
  destruct (balance <? computeBidcost bid reputation) eqn:Hread.
  { unfold throw. intros [= <- <-]; world_simpl. apply Z.ltb_lt in Hread.
    split; [by apply settled_short_read|done]. }
  apply Z.ltb_ge in Hread.
  unfold dynamodb.UpdateItem_spend, dynamodb.UpdateItem_reputation. unfold_monad.
  run_request w.
  { intros [= <- <-]; world_simpl. split; [by eapply settled_unreachable|done]. }
  fold (account w (TeamID bid)).
  destruct (account w (TeamID bid)) as [row|] eqn:Hrow; step.
  2:{ intros [= <- <-]; world_simpl. split; [by apply settled_no_item|done]. }
  destruct (computeBidcost bid reputation <=? TokenBalance row) eqn:Hwrite; step.
  2:{ intros [= <- <-]; world_simpl. apply Z.leb_gt in Hwrite.
      split; [by eapply settled_short_write|done]. }
  apply Z.leb_le in Hwrite.
  destruct (PriorityUsage row) as [usage|] eqn:Husage; step.
  2:{ intros [= <- <-]; world_simpl. split; [by eapply settled_no_usage|done]. }
  destruct (5 <? index (bump usage (Priority bid)) 10) eqn:Hten; step.
  2:{ intros [= <- <-]; world_simpl. apply Z.ltb_ge in Hten.
      split; [by eapply settled_debit|done]. }
  apply Z.ltb_lt in Hten.
  match goal with |- context [request ?w1] => run_request w1 end.
  { intros [= <- <-]; world_simpl. split; [by eapply settled_penalty_lost|done]. }
  rewrite lookup_insert_eq. step.
  intros [= <- <-]; world_simpl. rewrite insert_insert_eq.
  split; [by eapply settled_penalty|done].
Qed.

Lemma index_bump_eq usage k : index (bump usage k) k = index usage k + 1.
Proof. unfold index, bump. by rewrite lookup_insert_eq. Qed.

Lemma lookup_bump_ne usage k k' : k ≠ k' → bump usage k !! k' = usage !! k'.
Proof. intros Hne. unfold bump. by rewrite lookup_insert_ne. Qed.

Lemma index_bump_le usage k k' : index usage k' ≤ index (bump usage k) k'.
Proof.
  destruct (decide (k = k')) as [->|Hne].
  - rewrite index_bump_eq. lia.
  - unfold index. rewrite lookup_bump_ne by done. lia.
Qed.

Lemma account_insert w teamID row :
  <[GetTokenPK teamID := row]> (tokens w) !! GetTokenPK teamID = Some row.
Proof. apply lookup_insert_eq. Qed.

(** Two readings of the same key give the same item. *)
Ltac same_account :=
  repeat match goal with
         | H1 : ?t = Some ?a, H2 : ?t = Some ?b |- _ =>
             assert (b = a) by congruence; subst b; clear H2
         | H1 : ?t = Some _, H2 : ?t = None |- _ => congruence
         end.

Lemma debited_spend_row bid cost row usage :
  cost ≤ TokenBalance row → PriorityUsage row = Some usage →
  debited bid cost row (spend_row row cost (bump usage (Priority bid))).
Proof.
  intros Hle Husage. split; [exact Hle|]. split; [reflexivity|].
  split; [simpl; lia|]. exists usage, (bump usage (Priority bid)).
  split; [exact Husage|]. split; [reflexivity|].
  split; [apply index_bump_eq|]. intros k Hk. by apply lookup_bump_ne.
Qed.

Lemma debited_penalise_row bid cost row row' d :
  debited bid cost row row' → debited bid cost row (penalise_row row' d).
Proof. intros H. exact H. Qed.

Section Settled.

Context (bid : Bid) (balance reputation : Z) (w : World) (row : TokenDBRow).
Context (r : Error + Z) (T' : gmap string TokenDBRow).
Hypothesis Hrow : account w (TeamID bid) = Some row.
Hypothesis Hcase : settled bid balance reputation w r T'.

Let cost := computeBidcost bid reputation.
Let pk := GetTokenPK (TeamID bid).

Lemma settled_account :
  ∃ row', T' !! pk = Some row' ∧ (T' = tokens w ∨ debited bid cost row row').
Proof using Hrow Hcase.
  subst cost pk. destruct Hcase; same_account;
    try (exists row; split; [exact Hrow|by left]);
    rewrite account_insert; eexists; (split; [reflexivity|right]);
    eauto using debited_spend_row, debited_penalise_row.
Qed.

Lemma settled_short :
  TokenBalance row < cost →
  T' = tokens w
  ∧ ∃ e, r = inl e ∧ (head (outage w) ≠ Some true → InsufficientBalance e).
Proof using Hrow Hcase.
  subst cost pk. intros Hlt. destruct Hcase; same_account; try lia;
    (split; [reflexivity|]); eexists; (split; [reflexivity|]);
    intros Hup; try exact I.
  match goal with H : outage w = _ |- _ => rewrite H in Hup end. by destruct Hup.
Qed.

Lemma settled_success newBalance :
  r = inr newBalance →
  ∃ row', T' !! pk = Some row' ∧ debited bid cost row row'
          ∧ newBalance = TokenBalance row'.
Proof using Hrow Hcase.
  subst cost pk. intros Hr. destruct Hcase; same_account; try discriminate Hr;
    injection Hr as <-; rewrite account_insert; eexists;
    (split; [reflexivity|]); (split; [|reflexivity]);
    eauto using debited_spend_row, debited_penalise_row.
Qed.

Lemma settled_live :
  available w → cost ≤ balance → cost ≤ TokenBalance row →
  is_Some (PriorityUsage row) → ∃ newBalance, r = inr newBalance.
Proof using Hrow Hcase.
  subst cost pk. intros Hav Hread Hwrite [usage Husage].
  destruct Hcase; same_account; try lia; try congruence; eauto.
  - apply available_head in Hav.
    match goal with H : outage w = _ |- _ => rewrite H in Hav end. by destruct Hav.
  - exfalso. by eapply available_tail.
Qed.


End Settled.

(** C1: a debit never leaves the balance below zero.  [row] is the account
    as the conditional write finds it, [balance] and [reputation] are the
    values read before, and [cost] is the price computed from them.
    (1) Whatever the outcome, the account is either untouched or holds
        exactly [cost] less, which is not negative, with the counter of the
        bid's priority one higher and all other counters as before.
    (2) If [cost] exceeds the balance at write time the call fails, with an
        insufficient-balance error as soon as the request reaches the
        store, and the table is unchanged.
    (3) A call that succeeds returns the balance minus [cost] and has
        written it.
    (4) With the store available, a balance that covers [cost] (as read and
        as found) and an account that has its counters, the call
        succeeds. *)
Theorem SpendTokens_never_overdraws
    (bid : Bid) (balance reputation : Z) (w w' : World) (row : TokenDBRow)
    (r : Error + Z) :
  account w (TeamID bid) = Some row →
  SpendTokens_settle bid balance reputation w = (r, w') →
  let cost := computeBidcost bid reputation in
  (∃ row', account w' (TeamID bid) = Some row'
           ∧ (tokens w' = tokens w ∨ debited bid cost row row'))
  ∧ (TokenBalance row < cost →
       tokens w' = tokens w
       ∧ ∃ e, r = inl e ∧ (head (outage w) ≠ Some true → InsufficientBalance e))
  ∧ (∀ newBalance, r = inr newBalance →
       ∃ row', account w' (TeamID bid) = Some row' ∧ debited bid cost row row'
               ∧ newBalance = TokenBalance row')
  ∧ (available w → cost ≤ balance → cost ≤ TokenBalance row →
     is_Some (PriorityUsage row) → ∃ newBalance, r = inr newBalance).
Proof.
  intros Hrow Hrun cost.
  apply SpendTokens_settle_settled in Hrun as [Hcase _].
  split; [|split; [|split]].
  - by eapply settled_account.
  - by eapply settled_short.
  - intros nb. by eapply settled_success.
  - by eapply settled_live.
Qed.

Lemma SpendTokens_never_overdraws_witness :
  let bid := mkBid "A" "user" 10 in
  let row := mkTokenDBRow 1000 0 100 (Some InitialPriorityUsage) "A" 0 0 in
  account ledger_A "A" = Some row
  ∧ ∃ w' row', SpendTokens_settle bid 1000 100 ledger_A = (inr 990, w')
               ∧ account w' "A" = Some row' ∧ TokenBalance row' = 990.
Proof.
  intros bid row.
  assert (account ledger_A (TeamID bid) = Some row) as Hrow by (vm_compute; reflexivity).
  split; [exact Hrow|].
  destruct (SpendTokens_settle bid 1000 100 ledger_A) as [r w'] eqn:Hrun.
  destruct (SpendTokens_never_overdraws bid 1000 100 ledger_A w' row r Hrow Hrun)
    as (_ & _ & Hok & Hlive).
  assert (computeBidcost bid 100 = 10) as Hcost by (vm_compute; reflexivity).
  destruct Hlive as [nb ->].
  - apply available_nil. reflexivity.
  - rewrite Hcost. lia.
  - rewrite Hcost. simpl. lia.
  - simpl. eauto.
  - destruct (Hok nb eq_refl) as (row' & Hrow' & (_ & Hbal & _) & ->).
    rewrite Hcost in Hbal. simpl in Hbal. rewrite Hbal.
    exists w', row'. split; [reflexivity|]. split; [exact Hrow'|exact Hbal].
Defined.

(** ** The reputation penalty *)



(** The penalty is a request of its own: when it does not reach the store,
    the debit stays and the reputation is as before. *)
Example penalty_is_a_second_request :
  let bid := mkBid "A" "user" 10 in
  let w := set_outage [false; false; true] (spend_times 5 bid ledger_A) in
  let '(r, w') := SpendTokens bid w in
  r = inl (ErrUpdateReputation Unavailable)
  ∧ (TokenBalance <$> account w' "A") = Some 940
  ∧ (ReputationScore <$> account w' "A") = Some 100.
Proof. vm_compute. repeat split; reflexivity. Qed.

(** ** Reputation never exceeds the initial score *)

Lemma reputation_bounded_insert T pk row :
  reputation_bounded T → ReputationScore row ≤ InitialReputationScore →
  reputation_bounded (<[pk := row]> T).
Proof.
  intros HT Hrow pk' row'. rewrite lookup_insert. case_decide.
  - intros [= <-]. exact Hrow.
  - apply HT.
Qed.

Lemma keeps_ret {E A} (a : A) : keeps (mret a : M E A).
Proof. intros w r w' [= <- <-]. done. Qed.

Lemma keeps_throw {E A} (e : E) : keeps (throw e : M E A).
Proof. intros w r w' [= <- <-]. done. Qed.

Lemma keeps_bind {E A B} (m : M E A) (k : A → M E B) :
  keeps m → (∀ a, keeps (k a)) → keeps (m ≫= k).
Proof.
  intros Hm Hk w r w'. unfold_monad.
  destruct (m w) as [[e|a] w1] eqn:Hrun.
  - intros [= <- <-]. by eapply Hm.
  - intros Hrun' HT. eapply Hk; [exact Hrun'|]. by eapply Hm.
Qed.

Lemma keeps_wrap {E E' A} (f : E → E') (m : M E A) : keeps m → keeps (wrap f m).
Proof.
  intros Hm w r w'. unfold wrap.
  destruct (m w) as [[e|a] w1] eqn:Hrun; intros [= <- <-]; by eapply Hm.
Qed.

Lemma keeps_catch {E E' A} (m : M E A) : keeps m → keeps (catch m : M E' _).
Proof.
  intros Hm w r w'. unfold catch.
  destruct (m w) as [r1 w1] eqn:Hrun. intros [= <- <-]. by eapply Hm.
Qed.

Lemma keeps_request : keeps request.
Proof.
  intros w r w'. destruct (request_spec w) as [(o & _ & ->)|[_ ->]];
    intros [= <- <-]; done.
Qed.

Lemma keeps_time_Now {E} : keeps (time_Now_UnixMilli : M E Z).
Proof.
  intros w r w'. unfold time_Now_UnixMilli.
  destruct (clock w); intros [= <- <-]; done.
Qed.

Lemma keeps_ksuid_New {E} : keeps (ksuid_New : M E string).
Proof.
  intros w r w'. unfold ksuid_New.
  destruct (entropy w); intros [= <- <-]; done.
Qed.

Create HintDb keeps.
#[local] Hint Resolve keeps_ret keeps_throw keeps_wrap keeps_catch keeps_request
  keeps_time_Now keeps_ksuid_New : keeps.

(** Every request the package sends keeps the bound, whatever its
    parameters: so does any interleaving of requests of concurrent calls. *)
Lemma keeps_GetItem pk : keeps (dynamodb.GetItem pk).
Proof.
  apply keeps_bind; [apply keeps_request|]. intros _ w r w' [= <- <-]. done.
Qed.

Lemma keeps_PutItem_not_exists pk item :
  ReputationScore item ≤ InitialReputationScore →
  keeps (dynamodb.PutItem_not_exists pk item).
Proof.
  intros Hitem. apply keeps_bind; [apply keeps_request|]. intros _ w r w'.
  unfold atomically. destruct (tokens w !! pk); intros [= <- <-]; [done|].
  intros HT. by apply reputation_bounded_insert.
Qed.

Lemma keeps_PutItem_bid br : keeps (dynamodb.PutItem_bid br).
Proof.
  apply keeps_bind; [apply keeps_request|]. intros _ w r w' [= <- <-]. done.
Qed.

Lemma keeps_UpdateItem_spend pk amount usage_key :
  keeps (dynamodb.UpdateItem_spend pk amount usage_key).
Proof.
  apply keeps_bind; [apply keeps_request|]. intros _ w r w'. unfold atomically.
  destruct (tokens w !! pk) as [row|] eqn:Hrow; [|by intros [= <- <-]].
  destruct (amount <=? TokenBalance row); [|by intros [= <- <-]].
  destruct (PriorityUsage row); intros [= <- <-]; [|done].
  intros HT. apply reputation_bounded_insert; [done|]. exact (HT _ _ Hrow).
Qed.

Lemma keeps_UpdateItem_reputation pk decrease :
  0 ≤ decrease → keeps (dynamodb.UpdateItem_reputation pk decrease).
Proof.
  intros Hd. apply keeps_bind; [apply keeps_request|]. intros _ w r w'.
  unfold atomically.
  destruct (tokens w !! pk) as [row|] eqn:Hrow; intros [= <- <-]; [|done].
  intros HT. apply reputation_bounded_insert; [done|].
  pose proof (HT _ _ Hrow). simpl. lia.
Qed.

Lemma keeps_UpdateItem_refill pk :
  keeps (dynamodb.UpdateItem_refill pk InitialTokenCount InitialReputationScore).
Proof.
  apply keeps_bind; [apply keeps_request|]. intros _ w r w'. unfold atomically.
  intros [= <- <-] HT. apply reputation_bounded_insert; [done|].
  destruct (tokens w !! pk); simpl; lia.
Qed.

#[local] Hint Resolve keeps_GetItem keeps_PutItem_bid keeps_UpdateItem_spend
  keeps_UpdateItem_refill : keeps.

Lemma keeps_InitializeTokens teams : keeps (InitializeTokens teams).
Proof.
  induction teams as [|teamID teams IH]; simpl; [apply keeps_ret|].
  apply keeps_bind; [apply keeps_time_Now|]. intros now.
  apply keeps_bind.
  - apply keeps_catch, keeps_PutItem_not_exists. simpl. lia.
  - intros [[]|[]]; auto with keeps.
Qed.

Lemma keeps_GetTokenBalance teamID : keeps (GetTokenBalance teamID).
Proof.
  apply keeps_bind; [auto with keeps|]. intros [row|]; auto with keeps.
Qed.

Lemma keeps_SpendTokens_settle bid balance reputation :
  keeps (SpendTokens_settle bid balance reputation).
Proof.
  unfold SpendTokens_settle. case_match; [apply keeps_throw|].
  apply keeps_bind; [auto with keeps|]. intros [newBalance usage].
  apply keeps_bind; [|auto with keeps].
  case_match; [|apply keeps_ret].
  apply keeps_wrap, keeps_UpdateItem_reputation. lia.
Qed.

Lemma keeps_SpendTokens bid : keeps (SpendTokens bid).
Proof.
  apply keeps_bind; [apply keeps_GetTokenBalance|]. intros [balance reputation].
  apply keeps_SpendTokens_settle.
Qed.

Lemma keeps_RecordBid bid cost score : keeps (RecordBid bid cost score).
Proof.
  apply keeps_bind; [apply keeps_time_Now|]. intros now.
  apply keeps_bind; [apply keeps_ksuid_New|]. intros id.
  apply keeps_bind; auto with keeps.
Qed.

Lemma keeps_RunAuction_bid tm bid st : keeps (RunAuction_bid tm bid st).
Proof.
  apply keeps_bind; [apply keeps_GetTokenBalance|]. intros [balance reputation].
  apply keeps_bind; [apply keeps_RecordBid|]. intros _.
  repeat case_match; auto with keeps.
Qed.

Lemma keeps_RunAuction_loop tm bids st : keeps (RunAuction_loop tm bids st).
Proof.
  revert st. induction bids as [|bid bids IH]; intros st; simpl; [apply keeps_ret|].
  apply keeps_bind; [apply keeps_RunAuction_bid|]. exact IH.
Qed.

Lemma keeps_RunAuction lv tm bids : keeps (RunAuction lv tm bids).
Proof.
  apply keeps_bind; [apply keeps_RunAuction_loop|]. intros st.
  destruct (winningBid st); [|apply keeps_throw].
  apply keeps_bind; [apply keeps_SpendTokens|]. auto with keeps.
Qed.

Lemma keeps_RefillTokens teams : keeps (RefillTokens teams).
Proof.
  induction teams as [|teamID teams IH]; simpl; [apply keeps_ret|].
  apply keeps_bind; [auto with keeps|]. intros _. exact IH.
Qed.

Lemma keeps_perform call w :
  reputation_bounded (tokens w) → reputation_bounded (tokens (perform call w)).
Proof.
  intros HT. destruct call as [teams|bid|teams|lv tm bids|teamID|bid cost score]; simpl.
  - eapply keeps_InitializeTokens; [apply surjective_pairing|exact HT].
  - eapply keeps_SpendTokens; [apply surjective_pairing|exact HT].
  - eapply keeps_RefillTokens; [apply surjective_pairing|exact HT].
  - eapply keeps_RunAuction; [apply surjective_pairing|exact HT].
  - eapply keeps_GetTokenBalance; [apply surjective_pairing|exact HT].
  - eapply keeps_RecordBid; [apply surjective_pairing|exact HT].
Qed.

(** C10: in every world reachable from empty tables through InitializeTokens,
    SpendTokens, RefillTokens and RunAuction (and the two remaining methods
    that reach the store), no account holds a reputation above 100. *)
Theorem reputation_never_exceeds_100 (w : World) (teamID : string) (row : TokenDBRow) :
  reachable w → account w teamID = Some row → ReputationScore row ≤ 100.
Proof.
  intros Hreach. unfold account.
  assert (reputation_bounded (tokens w)) as HT; [|apply HT].
  induction Hreach as [o c e|call w _ IH|w o c e _ IH]; simpl.
  - intros pk row'. rewrite lookup_empty. discriminate.
  - by apply keeps_perform.
  - exact IH.
Qed.

Lemma reputation_never_exceeds_100_witness :
  let bid := mkBid "A" "user" 10 in
  let w := perform (CallSpendTokens bid) (perform (CallInitializeTokens ["A"]) empty_world) in
  let row := mkTokenDBRow 990 0 100 (Some (<[10 := 1]> InitialPriorityUsage)) "A" 0 0 in
  reachable w ∧ account w "A" = Some row ∧ ReputationScore row ≤ 100.
Proof.
  intros bid w row.
  assert (reachable w) as Hreach by (do 2 apply reachable_call; apply reachable_start).
  assert (account w "A" = Some row) as Hrow by (vm_compute; reflexivity).
  split; [exact Hreach|]. split; [exact Hrow|].
  exact (reputation_never_exceeds_100 w "A" row Hreach Hrow).
Defined.

(** ** Reading the balance, recording a bid *)

Lemma available_answered w : available w → available (answered w).
Proof.
  unfold available, answered. world_simpl.
  destruct (outage w) as [|b o]; simpl; [done|].
  intros H. by apply Forall_cons in H as [_ H].
Qed.

Lemma GetTokenBalance_spec teamID w :
  (∃ o, outage w = true :: o
        ∧ GetTokenBalance teamID w = (inl (ErrFetchBalance Unavailable), set_outage o w))
  ∨ (head (outage w) ≠ Some true
     ∧ GetTokenBalance teamID w =
         (match account w teamID with
          | Some row => inr (TokenBalance row, ReputationScore row)
          | None => inl (ErrTeamNotFound teamID)
          end, answered w)).
Proof.
  unfold GetTokenBalance, dynamodb.GetItem, account, answered. unfold_monad.
  run_request w; [left; by eauto|right].
  split; [done|]. by destruct (tokens w !! GetTokenPK teamID).
Qed.

Lemma GetTokenBalance_ok teamID w row :
  available w → account w teamID = Some row →
  GetTokenBalance teamID w = (inr (TokenBalance row, ReputationScore row), answered w).
Proof.
  intros Hav Hrow. apply available_head in Hav.
  destruct (GetTokenBalance_spec teamID w) as [(o & Hout & _)|[_ ->]].
  - rewrite Hout in Hav. by destruct Hav.
  - by rewrite Hrow.
Qed.

Lemma time_Now_spec {E} w :
  time_Now_UnixMilli (E := E) w
  = (inr (default 0 (head (clock w))), set_clock (tail (clock w)) w).
Proof. destruct w as [t b o [|now c] e]; reflexivity. Qed.

Lemma ksuid_New_spec {E} w :
  ksuid_New (E := E) w
  = (inr (default "000000000000000000000000000" (head (entropy w))),
     set_entropy (tail (entropy w)) w).
Proof. destruct w as [t b o c [|id e]]; reflexivity. Qed.

(** [RecordBid] always returns nil: when the write reaches the store the
    record is in "bids", when it does not nothing is written, and the caller
    cannot tell the difference. *)
Lemma RecordBid_spec bid cost score w :
  ∃ br w',
    RecordBid bid cost score w = (inr (), w')
    ∧ records br bid cost score
    ∧ tokens w' = tokens w ∧ outage w' = tail (outage w)
    ∧ ((∃ o, outage w = true :: o) ∧ bids w' = bids w
       ∨ head (outage w) ≠ Some true ∧ bids w' = <[(Pk br, Sk br) := br]> (bids w)).
Proof.
  unfold RecordBid. unfold_monad. rewrite time_Now_spec. step.
  rewrite ksuid_New_spec. step.
  match goal with |- context [dynamodb.PutItem_bid ?br] => exists br end.
  unfold dynamodb.PutItem_bid. unfold_monad.
  match goal with
  | |- context [request ?w1] =>
      destruct (request_spec w1) as [(o & Hout & Hreq)|[Hout Hreq]]
  end; eexists; rewrite Hreq; step.
  - split; [reflexivity|]. world_simpl. split; [by repeat split|].
    split; [reflexivity|]. split; [by rewrite Hout|]. left. by eauto.
  - split; [reflexivity|]. world_simpl. split; [by repeat split|].
    split; [reflexivity|]. split; [reflexivity|]. right. by split.
Qed.

(** ** Reachable example worlds *)

Lemma reachable_after_InitializeTokens teams w :
  reachable w → reachable (after (InitializeTokens teams) w).
Proof. apply (reachable_call (CallInitializeTokens teams)). Qed.

Lemma reachable_spend_times n bid w :
  reachable w → reachable (spend_times n bid w).
Proof.
  intros Hw. induction n as [|n IH]; [exact Hw|].
  exact (reachable_call (CallSpendTokens bid) _ IH).
Qed.

Lemma reachable_ledger_A : reachable ledger_A.
Proof. apply reachable_after_InitializeTokens, reachable_start. Qed.

Lemma reachable_ledger_AB : reachable ledger_AB.
Proof. apply reachable_after_InitializeTokens, reachable_start. Qed.

(** ** Refill *)

Lemma string_length_app s1 s2 :
  String.length (s1 +:+ s2) = (String.length s1 + String.length s2)%nat.
Proof.
  induction s1 as [|a s1 IH]; [reflexivity|].
  change (String a s1 +:+ s2) with (String a (s1 +:+ s2)). simpl. by rewrite IH.
Qed.

Lemma GetTokenPK_fresh teamID : GetTokenPK teamID ≠ teamID.
Proof.
  unfold GetTokenPK. intros Heq. apply (f_equal String.length) in Heq.
  rewrite string_length_app in Heq. simpl in Heq. lia.
Qed.

(** [RefillTokens] addresses the items whose key is the bare team
    identifier; every other item is left as it was. *)
Lemma RefillTokens_other_keys teams pk w :
  pk ∉ teams → tokens (after (RefillTokens teams) w) !! pk = tokens w !! pk.
Proof.
  unfold after. revert w. induction teams as [|teamID teams IH]; intros w Hpk; [done|].
  apply not_elem_of_cons in Hpk as [Hne Hpk].
  simpl. unfold dynamodb.UpdateItem_refill. unfold_monad.
  run_request w; [done|].
  rewrite IH by done. world_simpl. by rewrite lookup_insert_ne.
Qed.

Lemma RefillTokens_misses_account teamID w :
  account (after (RefillTokens [teamID]) w) teamID = account w teamID.
Proof.
  apply RefillTokens_other_keys. rewrite list_elem_of_singleton.
  apply GetTokenPK_fresh.
Qed.

(** C2, at the failing input: team "A" is initialised and spends 10 tokens;
    RefillTokens ["A"] then succeeds, the account of "A" still holds 990
    tokens, and a new item appears under the key "A". *)
Theorem RefillTokens_leaves_balance_spent :
  let w := after (SpendTokens (mkBid "A" "user" 10)) ledger_A in
  let '(r, w') := RefillTokens ["A"] w in
  (TokenBalance <$> account w "A") = Some 990
  ∧ r = inr ()
  ∧ (TokenBalance <$> account w' "A") = Some 990
  ∧ tokens w' !! "A" = Some (mkTokenDBRow 1000 0 100 None "" 0 0).
Proof. vm_compute. repeat split; reflexivity. Qed.

(** ** The auction round on concrete inputs *)

(** C3, at the failing input: team "A" bids alone at priority 10 and the
    second request of the round, the audit write, does not reach the store.
    The round goes on and succeeds: "A" wins and pays 10 tokens, and "bids"
    holds no record of the bid. *)
Theorem RunAuction_survives_lost_audit_write :
  let w := set_outage [false; true] ledger_A in
  ∀ lv tm,
    let '(r, w') := RunAuction lv tm [mkBid "A" "user" 10] w in
    r = inr "A"
    ∧ bids w' = ∅
    ∧ (TokenBalance <$> account w' "A") = Some 990.
Proof. intros w [|] [[[]|]]; vm_compute; repeat split; reflexivity. Qed.

(** C4, at the failing input: after fifteen debits at priority 10 team "A"
    holds 786 tokens and reputation 0.  Its bid at priority 1 costs 2
    tokens and is the only bid of the round, and the round fails with "no
    winner". *)
Theorem RunAuction_single_bid_no_winner :
  let w := spend_times 15 (mkBid "A" "user" 10) ledger_A in
  let bid := mkBid "A" "user" 1 in
  reachable w
  ∧ (TokenBalance <$> account w "A") = Some 786
  ∧ (ReputationScore <$> account w "A") = Some 0
  ∧ computeBidcost bid 0 = 2
  ∧ ∀ lv tm, fst (RunAuction lv tm [bid] w) = inl ErrNoWinner.
Proof.
  intros w bid. split; [apply reachable_spend_times, reachable_ledger_A|].
  split; [vm_compute; reflexivity|]. split; [vm_compute; reflexivity|].
  split; [vm_compute; reflexivity|].
  intros [|] [[[]|]]; vm_compute; reflexivity.
Qed.

(** C6, at the failing input: teams "A" and "B" both hold 786 tokens and
    reputation 0 and both bid at priority 1, so both bids cost 2 tokens and
    score 0; the round fails with "no winner" instead of returning "A".
    Moreover, with one loop variable for the whole loop, two fresh teams
    bidding at the same priority make "B", the bid listed last, the
    winner. *)
Theorem RunAuction_equal_scores_first_bid_loses :
  let w := spend_times 15 (mkBid "B" "user" 10)
             (spend_times 15 (mkBid "A" "user" 10) ledger_AB) in
  let bids := [mkBid "A" "user" 1; mkBid "B" "user" 1] in
  (reachable w
   ∧ (TokenBalance <$> account w "A") = Some 786
   ∧ (TokenBalance <$> account w "B") = Some 786
   ∧ (ReputationScore <$> account w "A") = Some 0
   ∧ (ReputationScore <$> account w "B") = Some 0
   ∧ computeBidcost (mkBid "A" "user" 1) 0 = 2
   ∧ ∀ lv tm, fst (RunAuction lv tm bids w) = inl ErrNoWinner)
  ∧ ∀ tm,
      let '(r, w') :=
        RunAuction SharedLoopVar tm [mkBid "A" "user" 5; mkBid "B" "user" 5] ledger_AB in
      r = inr "B"
      ∧ (TokenBalance <$> account w' "A") = Some 1000
      ∧ (TokenBalance <$> account w' "B") = Some 995.
Proof.
  intros w bids. split.
  - split; [do 2 apply reachable_spend_times; apply reachable_ledger_AB|].
    do 5 (split; [vm_compute; reflexivity|]).
    intros [|] [[[]|]]; vm_compute; reflexivity.
  - intros [[[]|]]; vm_compute; repeat split; reflexivity.
Qed.

(** C5 as stated fails: team "A", freshly initialised, bids alone at
    priority 11.  The round reads the account, prices the bid at 0, writes
    its record and succeeds: "A" wins, pays nothing, and has one debit
    counted at priority 11. *)
Lemma RunAuction_accepts_priority_11 :
  let bid := mkBid "A" "user" 11 in
  ¬ (1 ≤ Priority bid ≤ 10)
  ∧ ∀ lv tm,
      let '(r, w') := RunAuction lv tm [bid] ledger_A in
      r = inr "A"
      ∧ (Cost ∘ snd <$> map_to_list (bids w')) = [0]
      ∧ (TokenBalance <$> account w' "A") = Some 1000
      ∧ usage_count w' "A" 11 = Some 1.
Proof.
  intros bid. split; [simpl; lia|].
  intros [|] [[[]|]]; vm_compute; repeat split; reflexivity.
Qed.

(** ** A round with a single bid *)

Lemma available_step w w' : available w → outage w' = tail (outage w) → available w'.
Proof.
  unfold available. intros Hav ->. destruct (outage w) as [|b o]; simpl; [done|].
  by apply Forall_cons in Hav as [_ Hav].
Qed.

Lemma RecordBid_ok bid cost score w :
  available w →
  ∃ br w',
    RecordBid bid cost score w = (inr (), w')
    ∧ records br bid cost score
    ∧ tokens w' = tokens w ∧ available w'
    ∧ bids w' !! (Pk br, Sk br) = Some br.
Proof.
  intros Hav.
  destruct (RecordBid_spec bid cost score w)
    as (br & w' & Hrun & Hbr & Htokens & Hout & [[[o Ho] _]|[_ Hbids]]).
  - apply available_head in Hav. rewrite Ho in Hav. by destruct Hav.
  - exists br, w'. split; [exact Hrun|]. split; [exact Hbr|]. split; [exact Htokens|].
    split; [by eapply available_step|]. rewrite Hbids. apply lookup_insert_eq.
Qed.

(** With the store available, a debit right after the read succeeds exactly
    when the balance covers the cost. *)
Lemma SpendTokens_sequential bid w row r w' :
  available w → account w (TeamID bid) = Some row →
  SpendTokens bid w = (r, w') →
  let cost := computeBidcost bid (ReputationScore row) in
  bids w' = bids w
  ∧ (TokenBalance row < cost →
       r = inl (ErrInsufficientBalance (TokenBalance row)) ∧ tokens w' = tokens w)
  ∧ (cost ≤ TokenBalance row → is_Some (PriorityUsage row) →
       ∃ row', r = inr (TokenBalance row') ∧ account w' (TeamID bid) = Some row'
               ∧ debited bid cost row row').
Proof.
  intros Hav Hrow Hrun cost. revert Hrun. unfold SpendTokens. unfold_monad.
  rewrite (GetTokenBalance_ok _ _ row Hav Hrow). step. intros Hrun.
  pose proof (SpendTokens_settle_settled _ _ _ _ _ _ Hrun) as [Hcase Hbids].
  split; [exact Hbids|]. split.
  - intros Hlt. unfold SpendTokens_settle in Hrun. fold cost in Hrun.
    apply Z.ltb_lt in Hlt. rewrite Hlt in Hrun. by injection Hrun as <- <-.
  - intros Hle Husage.
    destruct (settled_live bid _ _ (answered w) row r _ Hrow Hcase) as [nb ->];
      [by apply available_answered|done..|].
    destruct (settled_success bid _ _ (answered w) row _ _ Hrow Hcase nb eq_refl)
      as (row' & Hrow' & Hdebited & ->).
    by exists row'.
Qed.

Lemma RunAuction_single_bid lv tm bid w row r w' :
  available w → account w (TeamID bid) = Some row →
  RunAuction lv tm [bid] w = (r, w') →
  let cost := computeBidcost bid (ReputationScore row) in
  let score := calculateScore (Priority bid) (ReputationScore row) in
  (∃ br, records br bid cost score ∧ bids w' !! (Pk br, Sk br) = Some br)
  ∧ (cost ≤ TokenBalance row →
     if (0 <? score)%float
     then is_Some (PriorityUsage row) →
          r = inr (TeamID bid)
          ∧ ∃ row', account w' (TeamID bid) = Some row' ∧ debited bid cost row row'
     else r = inl ErrNoWinner ∧ tokens w' = tokens w).
Proof.
  intros Hav Hrow Hrun cost score. revert Hrun.
  unfold RunAuction, RunAuction_loop, RunAuction_bid. unfold_monad.
  rewrite (GetTokenBalance_ok _ _ row Hav Hrow). step.
  fold cost score.
  destruct (RecordBid_ok bid cost score (answered w))
    as (br & w2 & -> & Hbr & Htokens & Hav2 & Hbids);
    [by apply available_answered|]. step.
  assert (account w2 (TeamID bid) = Some row) as Hrow2
    by (unfold account; by rewrite Htokens).
  destruct (TokenBalance row <? cost) eqn:Hafford.
  { (* not affordable *)
    apply Z.ltb_lt in Hafford.
    destruct (logger tm); step; intros [= <- <-];
      (split; [by exists br|]); intros; lia. }
  apply Z.ltb_ge in Hafford.
  change (maxScore Round_zero) with 0%float.
  destruct (0 <? score)%float eqn:Hscore; step; cbn [winningBid].
  2:{ intros [= <- <-]. split; [by exists br|]. intros _. by rewrite Htokens. }
  assert (match lv with
          | SharedLoopVar => List.last [bid] bid
          | PerIterationLoopVar => bid
          end = bid) as -> by (by destruct lv).
  destruct (SpendTokens bid w2) as [[e|nb] w3] eqn:Hspend; step;
    intros [= <- <-];
    destruct (SpendTokens_sequential bid w2 row _ _ Hav2 Hrow2 Hspend)
      as (Hbids3 & _ & Hok);
    (split; [exists br; by rewrite Hbids3|]);
    intros _ Husage;
    destruct (Hok Hafford Husage) as (row' & Hr & Hrow' & Hdebited);
    [discriminate Hr|].
  split; [reflexivity|]. by exists row'.
Qed.

Lemma price_zero_checked :
  check_range (λ r, int64_of_float64 (float64_of_int64 0 * priceMultiplier r) =? 0)
    (-10000) 1000 = true.
Proof. vm_compute. reflexivity. Qed.

Lemma computeBidcost_outside bid reputation :
  ¬ (1 ≤ Priority bid ≤ 10) → -10000 ≤ reputation ≤ 1000 →
  computeBidcost bid reputation = 0.
Proof.
  intros Hp Hr. unfold computeBidcost. rewrite costMap_outside by exact Hp.
  apply Z.eqb_eq.
  exact (check_range_sound _ (-10000) 1000 reputation price_zero_checked Hr).
Qed.

(** C5, amended: a bid with a priority outside 1-10 is not rejected and
    nothing is validated.  Its base cost is the zero value of the table, so
    it is priced at 0 (for every reputation from -10000 to 1000); a round
    holding this bid alone, for an existing team and with the store
    available, reads the team's account and writes the bid's audit record
    with the computed cost and score; and if the balance covers that cost,
    the score is positive and the account has its counters, the bid wins:
    the round returns its team and the debit counts one more use of that
    priority. *)
Theorem out_of_range_priority_is_processed
    (lv : LoopVar) (tm : Manager) (bid : Bid) (w w' : World) (row : TokenDBRow)
    (r : Error + string) :
  ¬ (1 ≤ Priority bid ≤ 10) →
  available w → account w (TeamID bid) = Some row →
  RunAuction lv tm [bid] w = (r, w') →
  let cost := computeBidcost bid (ReputationScore row) in
  let score := calculateScore (Priority bid) (ReputationScore row) in
  index costMap (Priority bid) = 0
  ∧ (-10000 ≤ ReputationScore row ≤ 1000 → cost = 0)
  ∧ (∃ br, records br bid cost score ∧ bids w' !! (Pk br, Sk br) = Some br)
  ∧ (cost ≤ TokenBalance row → (0 <? score)%float = true →
     is_Some (PriorityUsage row) →
     r = inr (TeamID bid)
     ∧ ∃ row', account w' (TeamID bid) = Some row' ∧ debited bid cost row row').
Proof.
  intros Hp Hav Hrow Hrun cost score.
  split; [by apply costMap_outside|]. split; [by apply computeBidcost_outside|].
  destruct (RunAuction_single_bid lv tm bid w row r w' Hav Hrow Hrun) as [Hrec Hwin].
  split; [exact Hrec|]. intros Hafford Hscore Husage.
  specialize (Hwin Hafford). fold score in Hwin. rewrite Hscore in Hwin. by apply Hwin.
Qed.

Lemma out_of_range_priority_is_processed_witness :
  let bid := mkBid "A" "user" 11 in
  let row := mkTokenDBRow 1000 0 100 (Some InitialPriorityUsage) "A" 0 0 in
  (¬ (1 ≤ Priority bid ≤ 10) ∧ available ledger_A ∧ account ledger_A "A" = Some row)
  ∧ index costMap 11 = 0
  ∧ computeBidcost bid 100 = 0
  ∧ fst (RunAuction PerIterationLoopVar NewManager [bid] ledger_A) = inr "A".
Proof.
  intros bid row.
  assert (¬ (1 ≤ Priority bid ≤ 10)) as Hp by (simpl; lia).
  assert (available ledger_A) as Hav by (apply available_nil; reflexivity).
  assert (account ledger_A (TeamID bid) = Some row) as Hrow by (vm_compute; reflexivity).
  destruct (RunAuction PerIterationLoopVar NewManager [bid] ledger_A) as [r w'] eqn:Hrun.
  destruct (out_of_range_priority_is_processed _ _ bid ledger_A w' row r Hp Hav Hrow Hrun)
    as (Hbase & Hcost & _ & Hwin).
  split; [by repeat split|]. split; [exact Hbase|].
  assert (computeBidcost bid 100 = 0) as Hzero by (apply Hcost; simpl; lia).
  split; [exact Hzero|].
  apply Hwin.
  - change (ReputationScore row) with 100. rewrite Hzero. simpl. lia.
  - vm_compute. reflexivity.
  - simpl. eauto.
Defined.

(** ** Winner selection *)

Lemma ltb_irrefl (x : float) : (x <? x)%float = false.
Proof.
  rewrite ltb_spec. unfold SFltb, SFcompare.
  destruct (Prim2SF x) as [s|s| |s m e];
    [by destruct s|by destruct s|reflexivity|].
  assert (IntDef.Z.compare e e = Eq) as -> by apply Z.compare_refl.
  assert (PosDef.Pos.compare_cont Eq m m = Eq) as -> by apply Pos.compare_refl.
  destruct s; reflexivity.
Qed.

(** One pass of the loop either leaves the running best alone or replaces it
    by the current bid, and replaces it only if the bid is affordable and its
    score is strictly greater than the best score so far. *)
Lemma RunAuction_bid_strict tm bid st w st' w' :
  RunAuction_bid tm bid st w = (inr st', w') →
  st' = st
  ∨ ∃ row,
      account w (TeamID bid) = Some row
      ∧ computeBidcost bid (ReputationScore row) ≤ TokenBalance row
      ∧ (maxScore st <? calculateScore (Priority bid) (ReputationScore row))%float = true
      ∧ st' = mkRound (Some bid) (computeBidcost bid (ReputationScore row))
                (calculateScore (Priority bid) (ReputationScore row)).
Proof.
  unfold RunAuction_bid. unfold_monad.
  destruct (GetTokenBalance_spec (TeamID bid) w) as [(o & _ & ->)|[_ ->]];
    [discriminate|].
  destruct (account w (TeamID bid)) as [row|] eqn:Hrow; [|discriminate]. step.
  destruct (RecordBid_spec bid (computeBidcost bid (ReputationScore row))
              (calculateScore (Priority bid) (ReputationScore row)) (answered w))
    as (br & w2 & -> & _). step.
  destruct (TokenBalance row <? computeBidcost bid (ReputationScore row)) eqn:Hafford.
  { destruct (logger tm); [|discriminate]. intros [= <- <-]. by left. }
  apply Z.ltb_ge in Hafford.
  destruct (maxScore st <? calculateScore (Priority bid) (ReputationScore row))%float
    eqn:Hscore; intros [= <- <-]; [right|by left].
  by exists row.
Qed.

(** With the store available, an existing team and an affordable bid, one
    pass of the loop records the bid and compares its score. *)
Lemma RunAuction_bid_eligible tm bid st w row :
  available w → account w (TeamID bid) = Some row →
  let cost := computeBidcost bid (ReputationScore row) in
  let score := calculateScore (Priority bid) (ReputationScore row) in
  cost ≤ TokenBalance row →
  ∃ w', RunAuction_bid tm bid st w
        = (inr (if (maxScore st <? score)%float then mkRound (Some bid) cost score else st),
           w')
        ∧ tokens w' = tokens w ∧ available w'.
Proof.
  intros Hav Hrow cost score Hafford. unfold RunAuction_bid. unfold_monad.
  rewrite (GetTokenBalance_ok _ _ row Hav Hrow). step. fold cost score.
  destruct (RecordBid_ok bid cost score (answered w))
    as (br & w2 & -> & _ & Htokens & Hav2 & _); [by apply available_answered|]. step.
  apply Z.ltb_ge in Hafford. rewrite Hafford.
  exists w2. split; [by destruct (maxScore st <? score)%float|]. by split.
Qed.

(** Two eligible bids, the first with a positive score and the second with a
    score that is not strictly greater (equal, in particular): when each
    iteration has its own loop variable the round returns the team of the
    first bid; with one shared loop variable it settles and returns the bid
    listed last. *)
Lemma RunAuction_two_bids lv tm bid1 bid2 w row1 row2 :
  available w →
  account w (TeamID bid1) = Some row1 → account w (TeamID bid2) = Some row2 →
  let cost1 := computeBidcost bid1 (ReputationScore row1) in
  let cost2 := computeBidcost bid2 (ReputationScore row2) in
  let score1 := calculateScore (Priority bid1) (ReputationScore row1) in
  let score2 := calculateScore (Priority bid2) (ReputationScore row2) in
  cost1 ≤ TokenBalance row1 → cost2 ≤ TokenBalance row2 →
  is_Some (PriorityUsage row1) → is_Some (PriorityUsage row2) →
  (0 <? score1)%float = true → (score1 <? score2)%float = false →
  fst (RunAuction lv tm [bid1; bid2] w)
  = inr (TeamID match lv with PerIterationLoopVar => bid1 | SharedLoopVar => bid2 end).
Proof.
  intros Hav Hrow1 Hrow2 cost1 cost2 score1 score2 Hafford1 Hafford2 Husage1 Husage2
    Hpos Htie.
  unfold RunAuction, RunAuction_loop. unfold_monad.
  destruct (RunAuction_bid_eligible tm bid1 Round_zero w row1 Hav Hrow1 Hafford1)
    as (w1 & -> & Htokens1 & Hav1). step.
  change (maxScore Round_zero) with 0%float. fold score1. rewrite Hpos.
  assert (account w1 (TeamID bid2) = Some row2) as Hrow2'
    by (unfold account; by rewrite Htokens1).
  destruct (RunAuction_bid_eligible tm bid2
              (mkRound (Some bid1) (computeBidcost bid1 (ReputationScore row1)) score1)
              w1 row2 Hav1 Hrow2' Hafford2)
    as (w2 & -> & Htokens2 & Hav2). step.
  cbn [maxScore]. fold score2. rewrite Htie. cbn [winningBid].
  set (winner := match lv with
                 | SharedLoopVar => List.last [bid1; bid2] bid1
                 | PerIterationLoopVar => bid1
                 end).
  assert (winner = match lv with PerIterationLoopVar => bid1 | SharedLoopVar => bid2 end)
    as -> by (by destruct lv).
  set (winner := match lv with PerIterationLoopVar => bid1 | SharedLoopVar => bid2 end).
  assert (∃ row, account w2 (TeamID winner) = Some row
                 ∧ computeBidcost winner (ReputationScore row) ≤ TokenBalance row
                 ∧ is_Some (PriorityUsage row)) as (row & Hrow & Hafford & Husage).
  { unfold account. rewrite Htokens2, Htokens1. subst winner.
    destruct lv; [by exists row2|by exists row1]. }
  destruct (SpendTokens winner w2) as [r3 w3] eqn:Hspend.
  destruct (SpendTokens_sequential winner w2 row r3 w3 Hav2 Hrow Hspend)
    as (_ & _ & Hok).
  destruct (Hok Hafford Husage) as (row' & -> & _). reflexivity.
Qed.

(** In particular, of two eligible bids with the same positive score the
    first one wins when each iteration has its own loop variable. *)
Corollary RunAuction_equal_scores_first_wins tm bid1 bid2 w row1 row2 :
  available w →
  account w (TeamID bid1) = Some row1 → account w (TeamID bid2) = Some row2 →
  computeBidcost bid1 (ReputationScore row1) ≤ TokenBalance row1 →
  computeBidcost bid2 (ReputationScore row2) ≤ TokenBalance row2 →
  is_Some (PriorityUsage row1) → is_Some (PriorityUsage row2) →
  (0 <? calculateScore (Priority bid1) (ReputationScore row1))%float = true →
  calculateScore (Priority bid2) (ReputationScore row2)
  = calculateScore (Priority bid1) (ReputationScore row1) →
  fst (RunAuction PerIterationLoopVar tm [bid1; bid2] w) = inr (TeamID bid1).
Proof.
  intros Hav Hrow1 Hrow2 Hafford1 Hafford2 Husage1 Husage2 Hpos Heq.
  apply (RunAuction_two_bids PerIterationLoopVar tm bid1 bid2 w row1 row2);
    try assumption.
  rewrite Heq. apply ltb_irrefl.
Qed.

(** * Further properties of the package *)

(** ** Comparison of scores *)

Lemma SFltb_trans f1 f2 f3 :
  SFltb f1 f2 = true → SFltb f2 f3 = true → SFltb f1 f3 = true.
Proof.
  unfold SFltb, SFcompare.
  destruct f1 as [s1|s1| |s1 m1 e1], f2 as [s2|s2| |s2 m2 e2], f3 as [s3|s3| |s3 m3 e3];
    try discriminate; try (destruct s1, s2, s3; (discriminate || reflexivity)).
  change (IntDef.Z.compare e1 e2) with (e1 ?= e2).
  change (IntDef.Z.compare e2 e3) with (e2 ?= e3).
  change (IntDef.Z.compare e1 e3) with (e1 ?= e3).
  change (PosDef.Pos.compare_cont Eq m1 m2) with (m1 ?= m2)%positive.
  change (PosDef.Pos.compare_cont Eq m2 m3) with (m2 ?= m3)%positive.
  change (PosDef.Pos.compare_cont Eq m1 m3) with (m1 ?= m3)%positive.
  destruct s1, s2, s3; try discriminate; try reflexivity;
    destruct (Z.compare_spec e1 e2), (Z.compare_spec e2 e3), (Z.compare_spec e1 e3);
    try discriminate; try reflexivity; try lia; subst;
    destruct (Pos.compare_spec m1 m2), (Pos.compare_spec m2 m3), (Pos.compare_spec m1 m3);
    simpl; try discriminate; try reflexivity; try lia.
Qed.

Lemma ltb_trans (x y z : float) :
  (x <? y)%float = true → (y <? z)%float = true → (x <? z)%float = true.
Proof. rewrite !ltb_spec. apply SFltb_trans. Qed.

(** A function that rises at every step of a range rises along the range. *)
Lemma ltb_chain (f : Z → float) lo hi :
  (∀ x, lo ≤ x < hi → (f x <? f (x + 1)%Z)%float = true) →
  ∀ a b, lo ≤ a → a < b → b ≤ hi → (f a <? f b)%float = true.
Proof.
  intros Hstep a b Hlo Hab Hhi.
  assert (∀ n : nat, a + Z.of_nat n + 1 ≤ hi →
            (f a <? f (a + Z.of_nat n + 1)%Z)%float = true) as Hind.
  { induction n as [|n IH]; intros Hn.
    - rewrite Z.add_0_r. apply Hstep. lia.
    - apply (ltb_trans _ (f (a + Z.of_nat n + 1))); [apply IH; lia|].
      replace (a + Z.of_nat (S n) + 1) with (a + Z.of_nat n + 1 + 1) by lia.
      apply Hstep. lia. }
  specialize (Hind (Z.to_nat (b - a - 1))). rewrite Z2Nat.id in Hind by lia.
  replace (a + (b - a - 1) + 1) with b in Hind by lia. apply Hind. lia.
Qed.

Lemma score_steps_priority : check_grid score_step_priority 1 9 (-1000) 100 = true.
Proof. vm_compute. reflexivity. Qed.

Lemma score_steps_reputation : check_grid score_step_reputation 1 10 (-1000) 99 = true.
Proof. vm_compute. reflexivity. Qed.

(** X1: for a fixed reputation from -1000 to 100, the score is strictly
    increasing in the priority over 1..10. *)
Theorem calculateScore_increasing_in_priority (p1 p2 r : Z) :
  -1000 ≤ r ≤ 100 → 1 ≤ p1 → p1 < p2 → p2 ≤ 10 →
  (calculateScore p1 r <? calculateScore p2 r)%float = true.
Proof.
  intros Hr H1 H12 H10.
  apply (ltb_chain (λ p, calculateScore p r) 1 10); [|lia..].
  intros p Hp.
  apply (check_grid_sound score_step_priority 1 9 (-1000) 100 p r score_steps_priority);
    lia.
Qed.

Lemma calculateScore_increasing_in_priority_witness :
  (-1000 ≤ 50 ≤ 100 ∧ 1 ≤ 5 ∧ 5 < 9 ∧ 9 ≤ 10)
  ∧ (calculateScore 5 50 <? calculateScore 9 50)%float = true.
Proof.
  assert (-1000 ≤ 50 ≤ 100) as Hr by lia.
  assert (1 ≤ 5) as H1 by lia. assert (5 < 9) as H12 by lia.
  assert (9 ≤ 10) as H10 by lia.
  split; [by repeat split|].
  exact (calculateScore_increasing_in_priority 5 9 50 Hr H1 H12 H10).
Defined.

(** X2: for a fixed priority in 1..10, the score is strictly increasing in
    the reputation from -1000 to 100. *)
Theorem calculateScore_increasing_in_reputation (p r1 r2 : Z) :
  1 ≤ p ≤ 10 → -1000 ≤ r1 → r1 < r2 → r2 ≤ 100 →
  (calculateScore p r1 <? calculateScore p r2)%float = true.
Proof.
  intros Hp H1 H12 H100.
  apply (ltb_chain (calculateScore p) (-1000) 100); [|lia..].
  intros r Hr.
  apply (check_grid_sound score_step_reputation 1 10 (-1000) 99 p r
           score_steps_reputation); lia.
Qed.

Lemma calculateScore_increasing_in_reputation_witness :
  (1 ≤ 9 ≤ 10 ∧ -1000 ≤ 50 ∧ 50 < 100 ∧ 100 ≤ 100)
  ∧ (calculateScore 9 50 <? calculateScore 9 100)%float = true.
Proof.
  assert (1 ≤ 9 ≤ 10) as Hp by lia.
  assert (-1000 ≤ 50) as H1 by lia. assert (50 < 100) as H12 by lia.
  assert (100 ≤ 100) as H100 by lia.
  split; [by repeat split|].
  exact (calculateScore_increasing_in_reputation 9 50 100 Hp H1 H12 H100).
Defined.

(** ** The price of a team in good standing *)

Lemma costMap_values p :
  index costMap p = 0 ∨ index costMap p = 1 ∨ index costMap p = 5
  ∨ index costMap p = 7 ∨ index costMap p = 10.
Proof.
  destruct (decide (1 ≤ p ≤ 10)) as [Hp|Hp]; [|left; by apply costMap_outside].
  rewrite costMap_tiers by exact Hp. unfold spec_baseCost.
  repeat case_match; auto.
Qed.

(** X3: at reputation 100 there is no markup: every bid, whatever its
    priority, is priced at the base cost of its priority, which is 0 when
    the priority is outside 1..10. *)
Theorem computeBidcost_at_full_reputation (bid : Bid) :
  computeBidcost bid InitialReputationScore = index costMap (Priority bid).
Proof.
  unfold computeBidcost.
  destruct (costMap_values (Priority bid)) as [->|[->|[->|[->| ->]]]];
    vm_compute; reflexivity.
Qed.

(** ** Initialisation *)

Lemma InitializeTokens_spec teams w r w' :
  InitializeTokens teams w = (r, w') →
  bids w' = bids w
  ∧ (∀ pk row, tokens w !! pk = Some row → tokens w' !! pk = Some row)
  ∧ (∀ pk, (∀ t, t ∈ teams → pk ≠ GetTokenPK t) → tokens w' !! pk = tokens w !! pk)
  ∧ (∀ pk row, tokens w !! pk = None → tokens w' !! pk = Some row →
       ∃ t, t ∈ teams ∧ pk = GetTokenPK t ∧ fresh_account row t)
  ∧ (available w →
       r = inr () ∧ available w' ∧ ∀ t, t ∈ teams → is_Some (account w' t)).
Proof.
  revert w. induction teams as [|t teams IH]; intros w.
  { intros [= <- <-]. repeat split; try done.
    - intros pk row ->. discriminate.
    - intros t Ht. by apply elem_of_nil in Ht. }
  cbn [InitializeTokens]. unfold dynamodb.PutItem_not_exists. unfold_monad.
  rewrite time_Now_spec. step.
  match goal with |- context [request ?w1] => run_request w1 end.
  { (* the request does not reach the store *)
    intros [= <- <-]. world_simpl. split_and!; try done.
    - intros pk row Hnone Hsome. congruence.
    - intros Hav. exfalso. apply available_head in Hav. rewrite Hout in Hav.
      by apply Hav. }
  destruct (tokens w !! GetTokenPK t) as [old|] eqn:Hold; step.
  - (* the team already exists *)
    intros Hrun. apply IH in Hrun as (Hbids & Hkeep & Hother & Hnew & Hok).
    world_simpl. split; [exact Hbids|]. split; [exact Hkeep|].
    split; [intros pk Hpk; apply Hother; intros t' Ht'; apply Hpk; by right|].
    split.
    { intros pk row Hnone Hsome. destruct (Hnew pk row Hnone Hsome) as (t' & Ht' & ?).
      exists t'. split; [by right|done]. }
    intros Hav.
    destruct Hok as (-> & Hav' & Hall).
    { unfold available in *. world_simpl. destruct (outage w); [done|].
      by apply Forall_cons in Hav as [_ Hav]. }
    split; [done|]. split; [done|].
    intros t' [->|Ht']%elem_of_cons; [|by apply Hall].
    exists old. by apply Hkeep.
  - (* the team is new *)
    intros Hrun. apply IH in Hrun as (Hbids & Hkeep & Hother & Hnew & Hok).
    world_simpl. split; [exact Hbids|]. split.
    { intros pk row Hrow. apply Hkeep. rewrite lookup_insert_ne; [done|congruence]. }
    split.
    { intros pk Hpk. rewrite Hother.
      - apply lookup_insert_ne. intros <-. apply (Hpk t); [by left|done].
      - intros t' Ht'. apply Hpk. by right. }
    split.
    { intros pk row Hnone Hsome.
      destruct (decide (pk = GetTokenPK t)) as [->|Hne].
      - exists t. split; [by left|]. split; [done|].
        pose proof (Hkeep (GetTokenPK t) _ (lookup_insert_eq _ _ _)) as Hkept.
        rewrite Hkept in Hsome. injection Hsome as <-. by repeat split.
      - destruct (Hnew pk row) as (t' & Ht' & ?); [by rewrite lookup_insert_ne|done|].
        exists t'. split; [by right|done]. }
    intros Hav.
    destruct Hok as (-> & Hav' & Hall).
    { unfold available in *. world_simpl. destruct (outage w); [done|].
      by apply Forall_cons in Hav as [_ Hav]. }
    split; [done|]. split; [done|].
    intros t' [->|Ht']%elem_of_cons; [|by apply Hall].
    eexists. apply Hkeep. apply lookup_insert_eq.
Qed.

Lemma GetTokenPK_inj a b : GetTokenPK a = GetTokenPK b → a = b.
Proof. unfold GetTokenPK. apply (inj (String.app "team#")). Qed.

(** X4: in every state and whatever the availability of the store,
    InitializeTokens leaves every existing item of "tokens" exactly as it
    was; an item that appears is the fresh account (1000 tokens, reputation
    100, counters at zero) of a team of the list; table "bids" is not
    touched. *)
Theorem InitializeTokens_never_overwrites
    (teams : list string) (w w' : World) (r : Error + ()) :
  InitializeTokens teams w = (r, w') →
  bids w' = bids w
  ∧ ∀ pk,
      match tokens w !! pk with
      | Some row => tokens w' !! pk = Some row
      | None =>
          ∀ row, tokens w' !! pk = Some row →
                 ∃ t, t ∈ teams ∧ pk = GetTokenPK t ∧ fresh_account row t
      end.
Proof.
  intros Hrun. apply InitializeTokens_spec in Hrun as (Hbids & Hkeep & _ & Hnew & _).
  split; [exact Hbids|]. intros pk.
  destruct (tokens w !! pk) as [row|] eqn:Hrow; [by apply Hkeep|].
  intros row. by apply Hnew.
Qed.

Lemma InitializeTokens_never_overwrites_witness :
  let w := after (SpendTokens (mkBid "A" "user" 10)) ledger_A in
  let w' := after (InitializeTokens ["A"; "B"]) w in
  (TokenBalance <$> account w' "A") = Some 990
  ∧ ∃ row, account w' "B" = Some row ∧ fresh_account row "B".
Proof.
  intros w w'.
  pose proof (surjective_pairing (InitializeTokens ["A"; "B"] w)) as Hrun.
  change (snd (InitializeTokens ["A"; "B"] w)) with w' in Hrun.
  destruct (InitializeTokens_never_overwrites ["A"; "B"] w w' _ Hrun) as [_ Hitems].
  split.
  - pose proof (Hitems (GetTokenPK "A")) as HA.
    assert (tokens w !! GetTokenPK "A"
            = Some (mkTokenDBRow 990 0 100 (Some (<[10 := 1]> InitialPriorityUsage)) "A" 0 0))
      as Hbefore by (vm_compute; reflexivity).
    rewrite Hbefore in HA. unfold account. by rewrite HA.
  - pose proof (Hitems (GetTokenPK "B")) as HB.
    assert (tokens w !! GetTokenPK "B" = None) as Hbefore by (vm_compute; reflexivity).
    rewrite Hbefore in HB.
    assert (is_Some (tokens w' !! GetTokenPK "B")) as [row Hrow]
      by (vm_compute; eauto).
    exists row. split; [exact Hrow|].
    destruct (HB row Hrow) as (t & _ & Hpk & Hfresh).
    apply GetTokenPK_inj in Hpk as <-. exact Hfresh.
Defined.

(** X5: with the store available InitializeTokens returns nil and every team
    of the list has an account afterwards. *)
Theorem InitializeTokens_creates_accounts (teams : list string) (w : World) :
  available w →
  ∃ w', InitializeTokens teams w = (inr (), w')
        ∧ available w'
        ∧ ∀ t, t ∈ teams → is_Some (account w' t).
Proof.
  intros Hav. destruct (InitializeTokens teams w) as [r w'] eqn:Hrun.
  apply InitializeTokens_spec in Hrun as (_ & _ & _ & _ & Hok).
  destruct (Hok Hav) as (-> & Hav' & Hall). by exists w'.
Qed.

Lemma InitializeTokens_creates_accounts_witness :
  available empty_world
  ∧ ∃ w', InitializeTokens ["A"; "B"] empty_world = (inr (), w')
          ∧ is_Some (account w' "B").
Proof.
  assert (available empty_world) as Hav by (apply available_nil; reflexivity).
  split; [exact Hav|].
  destruct (InitializeTokens_creates_accounts ["A"; "B"] empty_world Hav)
    as (w' & Hrun & _ & Hall).
  exists w'. split; [exact Hrun|]. apply Hall. set_solver.
Defined.

(** X6: InitializeTokens is idempotent on the ledger: once it has run with
    the store available, running it again on the same list, in whatever
    environment, changes no item of "tokens". *)
Theorem InitializeTokens_idempotent (teams : list string) (w w1 : World) :
  available w →
  tokens w1 = tokens (after (InitializeTokens teams) w) →
  tokens (after (InitializeTokens teams) w1) = tokens w1.
Proof.
  intros Hav Hw1. unfold after in *.
  destruct (InitializeTokens teams w) as [r w'] eqn:Hrun.
  apply InitializeTokens_spec in Hrun as (_ & _ & _ & _ & Hok).
  destruct (Hok Hav) as (_ & _ & Hall). simpl in Hw1.
  destruct (InitializeTokens teams w1) as [r2 w2] eqn:Hrun2.
  apply InitializeTokens_spec in Hrun2 as (_ & Hkeep & Hother & Hnew & _). simpl.
  apply map_eq. intros pk.
  destruct (tokens w1 !! pk) as [row|] eqn:Hrow; [by apply Hkeep|].
  destruct (tokens w2 !! pk) as [row2|] eqn:Hrow2; [|done].
  destruct (Hnew pk row2 Hrow Hrow2) as (t & Ht & -> & _).
  destruct (Hall t Ht) as [row' Hrow']. unfold account in Hrow'.
  rewrite <- Hw1 in Hrow'. congruence.
Qed.

Lemma InitializeTokens_idempotent_witness :
  available empty_world
  ∧ tokens (after (InitializeTokens ["A"; "B"]) ledger_AB) = tokens ledger_AB.
Proof.
  assert (available empty_world) as Hav by (apply available_nil; reflexivity).
  split; [exact Hav|].
  exact (InitializeTokens_idempotent ["A"; "B"] empty_world ledger_AB Hav eq_refl).
Defined.

(** X7: when the store becomes unreachable at the request of one team,
    InitializeTokens stops there with an error naming that team: the teams
    listed before it have their accounts, and no other account is created or
    changed. *)
Theorem InitializeTokens_stops_at_outage
    (before : list string) (t : string) (rest : list string) (w : World)
    (o : list bool) :
  outage w = replicate (length before) false ++ true :: o →
  ∃ w', InitializeTokens (before ++ t :: rest) w = (inl (ErrInitialize t Unavailable), w')
        ∧ (∀ t', t' ∈ before → is_Some (account w' t'))
        ∧ (∀ t', t' ∉ before → account w' t' = account w t').
Proof.
  revert w. induction before as [|a before IH]; intros w Hout.
  - simpl in Hout. cbn [app InitializeTokens].
    unfold dynamodb.PutItem_not_exists. unfold_monad. rewrite time_Now_spec. step.
    match goal with |- context [request ?w1] => run_request w1 end.
    2:{ rewrite Hout in Hout0. by destruct Hout0. }
    eexists. split; [reflexivity|]. world_simpl. split; [|done].
    intros t' Ht'. by apply elem_of_nil in Ht'.
  - simpl in Hout. cbn [app InitializeTokens].
    unfold dynamodb.PutItem_not_exists. unfold_monad. rewrite time_Now_spec. step.
    match goal with |- context [request ?w1] => run_request w1 end.
    { rewrite Hout in Hout0. discriminate. }
    rewrite Hout. cbn [tail].
    destruct (tokens w !! GetTokenPK a) as [old|] eqn:Hold; step.
    + match goal with |- context [InitializeTokens _ ?w1] =>
        destruct (IH w1) as (w' & -> & Hdone & Hrest); [reflexivity|] end.
      world_simpl. exists w'. split; [reflexivity|]. split.
      * intros t' [->|Ht']%elem_of_cons; [|by apply Hdone].
        destruct (decide (a ∈ before)) as [Hin|Hnin]; [by apply Hdone|].
        rewrite Hrest by done. unfold account. world_simpl. by rewrite Hold.
      * intros t' Ht'. apply not_elem_of_cons in Ht' as [_ Ht']. by apply Hrest.
    + match goal with |- context [InitializeTokens _ ?w1] =>
        destruct (IH w1) as (w' & -> & Hdone & Hrest); [reflexivity|] end.
      world_simpl. exists w'. split; [reflexivity|]. split.
      * intros t' [->|Ht']%elem_of_cons; [|by apply Hdone].
        destruct (decide (a ∈ before)) as [Hin|Hnin]; [by apply Hdone|].
        rewrite Hrest by done. unfold account. world_simpl.
        rewrite lookup_insert_eq. by eexists.
      * intros t' Ht'. apply not_elem_of_cons in Ht' as [Hne Ht'].
        rewrite Hrest by done. unfold account. world_simpl.
        apply lookup_insert_ne. intros Heq. by apply GetTokenPK_inj in Heq.
Qed.

Lemma InitializeTokens_stops_at_outage_witness :
  let w := set_outage [false; true] empty_world in
  outage w = replicate (length ["A"]) false ++ true :: []
  ∧ fst (InitializeTokens (["A"] ++ "B" :: ["C"]) w) = inl (ErrInitialize "B" Unavailable)
  ∧ is_Some (account (after (InitializeTokens (["A"] ++ "B" :: ["C"])) w) "A")
  ∧ account (after (InitializeTokens (["A"] ++ "B" :: ["C"])) w) "C" = None.
Proof.
  intros w.
  assert (outage w = replicate (length ["A"]) false ++ true :: []) as Hout by reflexivity.
  split; [exact Hout|].
  destruct (InitializeTokens_stops_at_outage ["A"] "B" ["C"] w [] Hout)
    as (w' & Hrun & Hdone & Hrest).
  unfold after. rewrite Hrun. simpl. split; [reflexivity|]. split.
  - apply Hdone. set_solver.
  - rewrite Hrest; [reflexivity|]. set_solver.
Defined.

(** ** Refill *)

Lemma refill_row_again o b r :
  refill_row (Some (refill_row o b r)) b r = refill_row o b r.
Proof. by destruct o. Qed.

Lemma RefillTokens_spec teams w r w' :
  RefillTokens teams w = (r, w') →
  bids w' = bids w
  ∧ (∀ pk, tokens w' !! pk = tokens w !! pk
           ∨ (pk ∈ teams
              ∧ tokens w' !! pk
                = Some (refill_row (tokens w !! pk) InitialTokenCount
                          InitialReputationScore)))
  ∧ (available w →
       r = inr () ∧ available w'
       ∧ ∀ pk, pk ∈ teams →
           tokens w' !! pk
           = Some (refill_row (tokens w !! pk) InitialTokenCount InitialReputationScore)).
Proof.
  revert w. induction teams as [|t teams IH]; intros w.
  { intros [= <- <-]. split_and!; [done|by left|]. intros Hav. split_and!; [done..|].
    intros pk Hpk. by apply elem_of_nil in Hpk. }
  cbn [RefillTokens]. unfold dynamodb.UpdateItem_refill. unfold_monad.
  run_request w.
  { intros [= <- <-]. world_simpl. split_and!; [done|by left|].
    intros Hav. exfalso. apply available_head in Hav. rewrite Hout in Hav. by apply Hav. }
  intros Hrun. apply IH in Hrun as (Hbids & Hitems & Hok). world_simpl.
  split; [exact Hbids|]. split.
  - intros pk. destruct (Hitems pk) as [Hsame|[Hin Hnew]].
    + destruct (decide (pk = t)) as [->|Hne].
      * right. split; [by left|]. by rewrite Hsame, lookup_insert_eq.
      * left. by rewrite Hsame, lookup_insert_ne.
    + right. split; [by right|]. rewrite Hnew. f_equal.
      destruct (decide (pk = t)) as [->|Hne].
      * by rewrite lookup_insert_eq, refill_row_again.
      * by rewrite lookup_insert_ne.
  - intros Hav. destruct Hok as (-> & Hav' & Hall).
    { unfold available in *. world_simpl. destruct (outage w); [done|].
      by apply Forall_cons in Hav as [_ Hav]. }
    split_and!; [done..|].
    intros pk Hpk. destruct (Hitems pk) as [Hsame|[_ Hnew]].
    + apply elem_of_cons in Hpk as [->|Hpk].
      * by rewrite Hsame, lookup_insert_eq.
      * rewrite (Hall pk Hpk). f_equal.
        destruct (decide (pk = t)) as [->|Hne].
        -- by rewrite lookup_insert_eq, refill_row_again.
        -- by rewrite lookup_insert_ne.
    + rewrite Hnew. f_equal.
      destruct (decide (pk = t)) as [->|Hne].
      * by rewrite lookup_insert_eq, refill_row_again.
      * by rewrite lookup_insert_ne.
Qed.

(** X8: with the store available RefillTokens returns nil and, for every
    identifier of the list, the item whose key is that identifier itself
    holds 1000 tokens and reputation 100 afterwards, with the usage counters
    it had before (none if the item did not exist); every other item is
    unchanged, and so is table "bids". *)
Theorem RefillTokens_resets_listed_keys (teams : list string) (w : World) :
  available w →
  ∃ w', RefillTokens teams w = (inr (), w')
        ∧ bids w' = bids w
        ∧ (∀ pk, pk ∈ teams →
             ∃ row', tokens w' !! pk = Some row'
                     ∧ TokenBalance row' = 1000 ∧ ReputationScore row' = 100
                     ∧ PriorityUsage row' = tokens w !! pk ≫= PriorityUsage)
        ∧ (∀ pk, pk ∉ teams → tokens w' !! pk = tokens w !! pk).
Proof.
  intros Hav. destruct (RefillTokens teams w) as [r w'] eqn:Hrun.
  apply RefillTokens_spec in Hrun as (Hbids & Hitems & Hok).
  destruct (Hok Hav) as (-> & _ & Hall).
  exists w'. split_and!; [done..| |].
  - intros pk Hpk. eexists. split; [by apply Hall|].
    by destruct (tokens w !! pk).
  - intros pk Hpk. by destruct (Hitems pk) as [Hsame|[Hin _]].
Qed.

Lemma RefillTokens_resets_listed_keys_witness :
  let w := after (SpendTokens (mkBid "A" "user" 10)) ledger_A in
  available w
  ∧ ∃ w', RefillTokens ["team#A"] w = (inr (), w')
          ∧ (TokenBalance <$> account w' "A") = Some 1000
          ∧ usage_count w' "A" 10 = Some 1.
Proof.
  intros w.
  assert (available w) as Hav by (apply available_nil; reflexivity).
  split; [exact Hav|].
  destruct (RefillTokens_resets_listed_keys ["team#A"] w Hav)
    as (w' & Hrun & _ & Hreset & _).
  exists w'. split; [exact Hrun|].
  destruct (Hreset "team#A") as (row' & Hrow' & Hbal & _ & Husage); [by left|].
  unfold usage_count, account.
  change (GetTokenPK "A") with "team#A". rewrite Hrow'. simpl. rewrite Hbal.
  split; [reflexivity|]. rewrite Husage. vm_compute. reflexivity.
Defined.

(** X9: RefillTokens is idempotent on the ledger: after a run with the store
    available, a second run on the same list, in whatever environment,
    changes no item of "tokens". *)
Theorem RefillTokens_idempotent (teams : list string) (w w1 : World) :
  available w →
  tokens w1 = tokens (after (RefillTokens teams) w) →
  tokens (after (RefillTokens teams) w1) = tokens w1.
Proof.
  intros Hav Hw1. unfold after in *.
  destruct (RefillTokens teams w) as [r w'] eqn:Hrun.
  apply RefillTokens_spec in Hrun as (_ & _ & Hok).
  destruct (Hok Hav) as (_ & _ & Hall). simpl in Hw1.
  destruct (RefillTokens teams w1) as [r2 w2] eqn:Hrun2.
  apply RefillTokens_spec in Hrun2 as (_ & Hitems & _). simpl.
  apply map_eq. intros pk. destruct (Hitems pk) as [Hsame|[Hin Hnew]]; [done|].
  rewrite Hnew, Hw1, (Hall pk Hin). by rewrite refill_row_again.
Qed.

Lemma RefillTokens_idempotent_witness :
  let w1 := after (RefillTokens ["A"; "B"]) ledger_A in
  available ledger_A
  ∧ tokens (after (RefillTokens ["A"; "B"]) w1) = tokens w1.
Proof.
  intros w1.
  assert (available ledger_A) as Hav by (apply available_nil; reflexivity).
  split; [exact Hav|].
  exact (RefillTokens_idempotent ["A"; "B"] ledger_A w1 Hav eq_refl).
Defined.

(** ** Reading the balance *)

(** X10: GetTokenBalance never writes: both tables are as before.  It
    answers with the balance and reputation of the team's account, with
    "team not found" when the store holds no such account, and with a fetch
    error when the request does not reach the store. *)
Theorem GetTokenBalance_reads_only
    (teamID : string) (w w' : World) (r : Error + Z * Z) :
  GetTokenBalance teamID w = (r, w') →
  tokens w' = tokens w ∧ bids w' = bids w
  ∧ ((∃ o, outage w = true :: o) ∧ r = inl (ErrFetchBalance Unavailable)
     ∨ head (outage w) ≠ Some true
       ∧ match account w teamID with
         | Some row => r = inr (TokenBalance row, ReputationScore row)
         | None => r = inl (ErrTeamNotFound teamID)
         end).
Proof.
  destruct (GetTokenBalance_spec teamID w) as [(o & Hout & ->)|[Hout ->]];
    intros [= <- <-]; unfold answered; world_simpl; (split; [done|]); (split; [done|]).
  - left. by eauto.
  - right. split; [done|]. by destruct (account w teamID).
Qed.

Lemma GetTokenBalance_reads_only_witness :
  fst (GetTokenBalance "A" ledger_A) = inr (1000, 100)
  ∧ fst (GetTokenBalance "B" ledger_A) = inl (ErrTeamNotFound "B")
  ∧ tokens (snd (GetTokenBalance "B" ledger_A)) = tokens ledger_A.
Proof.
  pose proof (GetTokenBalance_reads_only "A" ledger_A _ _
                (surjective_pairing (GetTokenBalance "A" ledger_A))) as (_ & _ & HA).
  pose proof (GetTokenBalance_reads_only "B" ledger_A _ _
                (surjective_pairing (GetTokenBalance "B" ledger_A))) as (HT & _ & HB).
  split; [|split; [|exact HT]].
  - destruct HA as [[[o Ho] _]|[_ HA]]; [discriminate Ho|]. exact HA.
  - destruct HB as [[[o Ho] _]|[_ HB]]; [discriminate Ho|]. exact HB.
Defined.

(** ** A debit concerns one account *)

Lemma settled_frame bid balance reputation w r T' :
  settled bid balance reputation w r T' →
  ∀ pk, pk ≠ GetTokenPK (TeamID bid) → T' !! pk = tokens w !! pk.
Proof.
  intros Hcase pk Hpk. destruct Hcase; try done; by rewrite lookup_insert_ne.
Qed.

(** X11: SpendTokens writes at most the item of the bidding team: every
    other item of "tokens" and the whole of table "bids" are as before; and
    for a team without account it fails and changes nothing. *)
Theorem SpendTokens_touches_only_bidder (bid : Bid) (w w' : World) (r : Error + Z) :
  SpendTokens bid w = (r, w') →
  bids w' = bids w
  ∧ (∀ pk, pk ≠ GetTokenPK (TeamID bid) → tokens w' !! pk = tokens w !! pk)
  ∧ (∀ teamID, teamID ≠ TeamID bid → account w' teamID = account w teamID)
  ∧ (account w (TeamID bid) = None → tokens w' = tokens w ∧ ∃ e, r = inl e).
Proof.
  unfold SpendTokens. unfold_monad.
  destruct (GetTokenBalance_spec (TeamID bid) w) as [(o & Hout & ->)|[Hout ->]].
  { intros [= <- <-]. world_simpl. split_and!; try done. by eauto. }
  destruct (account w (TeamID bid)) as [row|] eqn:Hrow; step.
  2:{ intros [= <- <-]. unfold answered. world_simpl. split_and!; try done. by eauto. }
  intros Hrun. apply SpendTokens_settle_settled in Hrun as [Hcase Hbids].
  pose proof (settled_frame _ _ _ _ _ _ Hcase) as Hframe.
  unfold answered in *. world_simpl.
  split; [exact Hbids|]. split; [exact Hframe|]. split; [|done].
  intros teamID Hne. apply Hframe. intros Heq. by apply GetTokenPK_inj in Heq.
Qed.

Lemma SpendTokens_touches_only_bidder_witness :
  let w' := after (SpendTokens (mkBid "A" "user" 10)) ledger_AB in
  account w' "B" = account ledger_AB "B" ∧ bids w' = bids ledger_AB.
Proof.
  intros w'.
  pose proof (SpendTokens_touches_only_bidder (mkBid "A" "user" 10) ledger_AB _ _
                (surjective_pairing (SpendTokens (mkBid "A" "user" 10) ledger_AB)))
    as (Hbids & _ & Hothers & _).
  split; [|exact Hbids]. apply Hothers. discriminate.
Defined.

(** ** What a call can do to an item *)

Lemma RunAuction_bid_tokens tm bid st w r w' :
  RunAuction_bid tm bid st w = (r, w') → tokens w' = tokens w.
Proof.
  unfold RunAuction_bid. unfold_monad.
  destruct (GetTokenBalance_spec (TeamID bid) w) as [(o & Hout & ->)|[Hout ->]];
    [by intros [= <- <-]|].
  destruct (account w (TeamID bid)) as [row|]; [|by intros [= <- <-]]. step.
  match goal with |- context [RecordBid ?b ?c ?s ?w1] =>
    destruct (RecordBid_spec b c s w1) as (br & w2 & -> & _ & Htokens & _) end. step.
  unfold answered in Htokens. world_simpl.
  repeat case_match; by intros [= <- <-].
Qed.

Lemma RunAuction_loop_tokens tm bids st w r w' :
  RunAuction_loop tm bids st w = (r, w') → tokens w' = tokens w.
Proof.
  revert st w. induction bids as [|bid bids IH]; intros st w; [by intros [= <- <-]|].
  cbn [RunAuction_loop]. unfold_monad.
  destruct (RunAuction_bid tm bid st w) as [[e|st1] w1] eqn:Hbid;
    apply RunAuction_bid_tokens in Hbid.
  - by intros [= <- <-].
  - intros Hrun. apply IH in Hrun. congruence.
Qed.

Lemma settled_item_step bid balance reputation w r T' :
  settled bid balance reputation w r T' →
  ∀ pk, item_step (tokens w !! pk) (T' !! pk).
Proof.
  intros Hcase pk.
  destruct (decide (pk = GetTokenPK (TeamID bid))) as [->|Hne].
  2:{ rewrite (settled_frame _ _ _ _ _ _ Hcase pk Hne). constructor. }
  destruct Hcase; try constructor; unfold account in *;
    rewrite lookup_insert_eq;
    match goal with H : tokens w !! _ = Some _ |- _ => rewrite H end;
    by constructor.
Qed.

Lemma SpendTokens_item_step bid w r w' :
  SpendTokens bid w = (r, w') → ∀ pk, item_step (tokens w !! pk) (tokens w' !! pk).
Proof.
  unfold SpendTokens. unfold_monad.
  destruct (GetTokenBalance_spec (TeamID bid) w) as [(o & Hout & ->)|[Hout ->]];
    [intros [= <- <-]; constructor|].
  destruct (account w (TeamID bid)) as [row|]; [|intros [= <- <-]; constructor]. step.
  intros Hrun. apply SpendTokens_settle_settled in Hrun as [Hcase _].
  exact (settled_item_step _ _ _ _ _ _ Hcase).
Qed.

Lemma perform_item_step call w pk :
  item_step (tokens w !! pk) (tokens (perform call w) !! pk).
Proof.
  destruct call as [teams|bid|teams|lv tm bids|teamID|bid cost score]; cbn [perform].
  - destruct (InitializeTokens teams w) as [r w'] eqn:Hrun. cbn [snd].
    apply InitializeTokens_spec in Hrun as (_ & Hkeep & _ & Hnew & _).
    destruct (tokens w !! pk) as [row|] eqn:Hrow.
    + rewrite (Hkeep pk row Hrow). constructor.
    + destruct (tokens w' !! pk) as [row'|] eqn:Hrow'; [|constructor].
      destruct (Hnew pk row' Hrow Hrow') as (t & _ & _ & Hfresh).
      by econstructor.
  - destruct (SpendTokens bid w) as [r w'] eqn:Hrun. cbn [snd].
    by eapply SpendTokens_item_step.
  - destruct (RefillTokens teams w) as [r w'] eqn:Hrun. cbn [snd].
    apply RefillTokens_spec in Hrun as (_ & Hitems & _).
    destruct (Hitems pk) as [->|[_ ->]]; constructor.
  - unfold RunAuction. unfold_monad.
    destruct (RunAuction_loop tm bids Round_zero w) as [[e|st] w1] eqn:Hloop;
      apply RunAuction_loop_tokens in Hloop; cbn [snd].
    { rewrite Hloop. constructor. }
    destruct (winningBid st) as [chosen|]; cbn [snd]; [|rewrite Hloop; constructor].
    match goal with |- context [SpendTokens ?b w1] =>
      destruct (SpendTokens b w1) as [[e|nb] w2] eqn:Hspend end;
      cbn [snd]; rewrite <- Hloop; by eapply SpendTokens_item_step.
  - destruct (GetTokenBalance_spec teamID w) as [(o & _ & ->)|[_ ->]];
      cbn [snd]; unfold answered; world_simpl; constructor.
  - destruct (RecordBid_spec bid cost score w) as (br & w' & -> & _ & Htokens & _).
    cbn [snd]. rewrite Htokens. constructor.
Qed.

Lemma InitialPriorityUsage_zero k : index InitialPriorityUsage k = 0.
Proof.
  unfold index, InitialPriorityUsage. cbn [list_to_map foldr fst snd].
  repeat (rewrite lookup_insert; case_decide; [reflexivity|]).
  by rewrite lookup_empty.
Qed.

Lemma index_bump_nonneg usage k :
  (∀ k', 0 ≤ index usage k') → ∀ k', 0 ≤ index (bump usage k) k'.
Proof.
  intros Hall k'. pose proof (index_bump_le usage k k'). specialize (Hall k'). lia.
Qed.

Lemma item_step_sound o o' :
  item_step o o' → (∀ row, o = Some row → row_sound row) →
  ∀ row', o' = Some row' → row_sound row'.
Proof.
  intros Hstep Ho row' Ho'. destruct Hstep; simplify_eq.
  - by apply Ho.
  - match goal with H : fresh_account _ _ |- _ => destruct H as (Hb & Hr & Hu & _) end.
    split; [rewrite Hb; done|]. rewrite Hu. split; [|lia].
    intros k. by rewrite InitialPriorityUsage_zero.
  - destruct o as [row|]; [|by split].
    destruct (Ho row eq_refl) as [_ Husage]. split; [done|]. cbn.
    destruct (PriorityUsage row) as [usage|]; [|done].
    destruct Husage as [Hcount _]. split; [done|]. unfold InitialReputationScore. lia.
  - destruct (Ho row eq_refl) as [Hbal Husage].
    match goal with H : PriorityUsage row = Some _ |- _ => rewrite H in Husage end.
    destruct Husage as [Hcount Hrep].
    split; [cbn; lia|]. cbn. split; [by apply index_bump_nonneg|].
    intros Hlow. specialize (Hrep Hlow).
    pose proof (index_bump_le usage usage_key 10). lia.
  - destruct (Ho row eq_refl) as [Hbal Husage].
    match goal with H : PriorityUsage row = Some _ |- _ => rewrite H in Husage end.
    destruct Husage as [Hcount Hrep].
    split; [cbn; lia|]. cbn. split; [by apply index_bump_nonneg|done].
Qed.

Lemma reachable_sound w :
  reachable w → ∀ pk row, tokens w !! pk = Some row → row_sound row.
Proof.
  induction 1 as [o c e|call w _ IH|w o c e _ IH]; simpl; intros pk row.
  - rewrite lookup_empty. discriminate.
  - apply (item_step_sound _ _ (perform_item_step call w pk)). intros row0. apply IH.
  - apply IH.
Qed.

(** X12: in every world reachable from empty tables through the exported
    methods, no account holds a negative balance and no usage counter is
    negative. *)
Theorem balance_never_negative (w : World) (teamID : string) (row : TokenDBRow) :
  reachable w → account w teamID = Some row →
  0 ≤ TokenBalance row
  ∧ ∀ usage k, PriorityUsage row = Some usage → 0 ≤ index usage k.
Proof.
  intros Hreach Hrow. destruct (reachable_sound w Hreach _ _ Hrow) as [Hbal Husage].
  split; [exact Hbal|]. intros usage k Hu. rewrite Hu in Husage. apply Husage.
Qed.

Lemma balance_never_negative_witness :
  let w := spend_times 15 (mkBid "A" "user" 10) ledger_A in
  reachable w
  ∧ ∃ row, account w "A" = Some row ∧ TokenBalance row = 786 ∧ 0 ≤ TokenBalance row.
Proof.
  intros w.
  assert (reachable w) as Hreach by apply reachable_spend_times, reachable_ledger_A.
  split; [exact Hreach|].
  assert (∃ row, account w "A" = Some row ∧ TokenBalance row = 786) as (row & Hrow & Hbal)
    by (vm_compute; eauto).
  exists row. split; [exact Hrow|]. split; [exact Hbal|].
  exact (proj1 (balance_never_negative w "A" row Hreach Hrow)).
Defined.

(** X13: in every reachable world, a team whose reputation is below 100 has
    made more than five debits at priority 10: reputation is lost in no
    other way. *)
Theorem reputation_lost_only_by_priority_10 (w : World) (teamID : string) (row : TokenDBRow) :
  reachable w → account w teamID = Some row → ReputationScore row < 100 →
  ∃ usage, PriorityUsage row = Some usage ∧ 5 < index usage 10.
Proof.
  intros Hreach Hrow Hlow. destruct (reachable_sound w Hreach _ _ Hrow) as [_ Husage].
  destruct (PriorityUsage row) as [usage|].
  - exists usage. split; [reflexivity|]. by apply Husage.
  - unfold InitialReputationScore in Husage. lia.
Qed.

Lemma reputation_lost_only_by_priority_10_witness :
  let w := spend_times 6 (mkBid "A" "user" 10) ledger_A in
  reachable w
  ∧ ∃ row, account w "A" = Some row ∧ ReputationScore row = 90
           ∧ ∃ usage, PriorityUsage row = Some usage ∧ 5 < index usage 10.
Proof.
  intros w.
  assert (reachable w) as Hreach by apply reachable_spend_times, reachable_ledger_A.
  split; [exact Hreach|].
  assert (∃ row, account w "A" = Some row ∧ ReputationScore row = 90) as (row & Hrow & Hrep)
    by (vm_compute; eauto).
  exists row. split; [exact Hrow|]. split; [exact Hrep|].
  apply (reputation_lost_only_by_priority_10 w "A" row Hreach Hrow). lia.
Defined.

(** X14: no call ever deletes an item of "tokens" or lowers a usage counter:
    an item that exists before a call exists after it, and every counter it
    had is at least as high. *)
Theorem counters_never_decrease
    (call : Call) (w : World) (pk : string) (row : TokenDBRow) (usage : gmap Z Z) :
  tokens w !! pk = Some row → PriorityUsage row = Some usage →
  ∃ row' usage',
    tokens (perform call w) !! pk = Some row'
    ∧ PriorityUsage row' = Some usage'
    ∧ ∀ k, index usage k ≤ index usage' k.
Proof.
  intros Hrow Husage. pose proof (perform_item_step call w pk) as Hstep.
  rewrite Hrow in Hstep.
  inversion Hstep as [o Ho|? ? ? Ho|o Ho|? cost usage0 key Hu Hc Ho
                      |? cost usage0 key Hu Hc Hten Ho]; subst.
  - exists row, usage. by split_and!.
  - eexists _, usage. split_and!; [done|by cbn|done].
  - rewrite Husage in Hu. injection Hu as <-.
    eexists _, _. split_and!; [done|by cbn|]. intros k. apply index_bump_le.
  - rewrite Husage in Hu. injection Hu as <-.
    eexists _, _. split_and!; [done|by cbn|]. intros k. apply index_bump_le.
Qed.

Lemma counters_never_decrease_witness :
  let w := spend_times 3 (mkBid "A" "user" 10) ledger_A in
  let call := CallRunAuction PerIterationLoopVar NewManager [mkBid "A" "user" 10] in
  ∃ row usage row' usage',
    tokens w !! "team#A" = Some row ∧ PriorityUsage row = Some usage
    ∧ tokens (perform call w) !! "team#A" = Some row'
    ∧ PriorityUsage row' = Some usage'
    ∧ index usage 10 = 3 ∧ 3 ≤ index usage' 10.
Proof.
  intros w call.
  assert (∃ row usage, tokens w !! "team#A" = Some row ∧ PriorityUsage row = Some usage
                       ∧ index usage 10 = 3) as (row & usage & Hrow & Husage & Hten)
    by (vm_compute; eauto 10).
  destruct (counters_never_decrease call w "team#A" row usage Hrow Husage)
    as (row' & usage' & Hrow' & Husage' & Hle).
  exists row, usage, row', usage'.
  split; [exact Hrow|]. split; [exact Husage|]. split; [exact Hrow'|].
  split; [exact Husage'|]. split; [exact Hten|].
  rewrite <- Hten. apply Hle.
Defined.

(** ** Winner selection in general *)

Lemma ltb_asym (x y : float) : (x <? y)%float = true → (y <? x)%float = false.
Proof.
  intros Hxy. destruct (y <? x)%float eqn:Hyx; [|reflexivity].
  pose proof (ltb_trans x y x Hxy Hyx) as Hxx. by rewrite ltb_irrefl in Hxx.
Qed.

Lemma SFltb_le_lt f1 f2 f3 :
  SFltb f1 f2 = false → SFltb f1 f3 = true → SFeqb f2 f2 = true → SFltb f2 f3 = true.
Proof.
  unfold SFltb, SFeqb, SFcompare.
  destruct f1 as [s1|s1| |s1 m1 e1], f2 as [s2|s2| |s2 m2 e2], f3 as [s3|s3| |s3 m3 e3];
    try discriminate; try (destruct s1, s2, s3; (discriminate || reflexivity)).
  change (IntDef.Z.compare e1 e2) with (e1 ?= e2).
  change (IntDef.Z.compare e2 e3) with (e2 ?= e3).
  change (IntDef.Z.compare e1 e3) with (e1 ?= e3).
  change (IntDef.Z.compare e2 e2) with (e2 ?= e2).
  change (PosDef.Pos.compare_cont Eq m1 m2) with (m1 ?= m2)%positive.
  change (PosDef.Pos.compare_cont Eq m2 m3) with (m2 ?= m3)%positive.
  change (PosDef.Pos.compare_cont Eq m1 m3) with (m1 ?= m3)%positive.
  change (PosDef.Pos.compare_cont Eq m2 m2) with (m2 ?= m2)%positive.
  intros H12 H13 _. revert H12 H13.
  destruct s1, s2, s3; try discriminate; try reflexivity;
    destruct (Z.compare_spec e1 e2), (Z.compare_spec e2 e3), (Z.compare_spec e1 e3);
    try discriminate; try reflexivity; try lia; subst;
    destruct (Pos.compare_spec m1 m2), (Pos.compare_spec m2 m3), (Pos.compare_spec m1 m3);
    simpl; try discriminate; try reflexivity; try lia.
Qed.

(** [y] is not above [x], [x] is below [z], and [y] is a number: then [y] is
    below [z]. *)
Lemma ltb_le_lt (x y z : float) :
  (x <? y)%float = false → (x <? z)%float = true → is_number y →
  (y <? z)%float = true.
Proof.
  unfold is_number. rewrite !ltb_spec, FloatAxioms.eqb_spec. apply SFltb_le_lt.
Qed.

Lemma eligible_cost_of T bid :
  eligible T bid ↔
  ∃ row, T !! GetTokenPK (TeamID bid) = Some row ∧ cost_of T bid ≤ TokenBalance row.
Proof. unfold eligible, cost_of. split; intros (row & Hrow & Hle); exists row;
  rewrite Hrow in *; by split. Qed.

(** One pass of the loop that does not end the round: the ledger is left
    alone, the team exists, and the running best is replaced exactly when the
    bid is eligible and scores strictly higher. *)
Lemma RunAuction_bid_step tm bid st w st' w' :
  RunAuction_bid tm bid st w = (inr st', w') →
  tokens w' = tokens w
  ∧ is_Some (account w (TeamID bid))
  ∧ (¬ eligible (tokens w) bid ∧ st' = st ∧ is_Some (logger tm)
     ∨ eligible (tokens w) bid
       ∧ st' = if (maxScore st <? score_of (tokens w) bid)%float
               then mkRound (Some bid) (cost_of (tokens w) bid) (score_of (tokens w) bid)
               else st).
Proof.
  intros Hrun. split; [by eapply RunAuction_bid_tokens|]. revert Hrun.
  unfold RunAuction_bid, eligible, score_of, cost_of. unfold_monad.
  destruct (GetTokenBalance_spec (TeamID bid) w) as [(o & Hout & ->)|[Hout ->]];
    [discriminate|].
  unfold account.
  destruct (tokens w !! GetTokenPK (TeamID bid)) as [row|] eqn:Hrow; [|discriminate].
  step.
  match goal with |- context [RecordBid ?b ?c ?s ?w1] =>
    destruct (RecordBid_spec b c s w1) as (br & w2 & -> & _) end. step.
  destruct (TokenBalance row <? computeBidcost bid (ReputationScore row)) eqn:Hafford.
  - apply Z.ltb_lt in Hafford.
    destruct (logger tm) as [l|] eqn:Hlogger; [|discriminate].
    intros [= <- <-]. split; [by eauto|]. left. split_and!; [|done|by eauto].
    intros (row' & [= <-] & Hle). lia.
  - apply Z.ltb_ge in Hafford. intros Hrun. split; [by eauto|]. right.
    split; [by exists row|].
    by destruct (maxScore st <? _)%float; injection Hrun as <- <-.
Qed.

(** The loop as a whole: either the running best is never replaced, or the
    batch splits around the bid that ends up selected. *)
Lemma RunAuction_loop_split tm bids st w st' w' :
  RunAuction_loop tm bids st w = (inr st', w') →
  let T := tokens w in
  st' = st
  ∧ (∀ b, b ∈ bids → eligible T b → (maxScore st <? score_of T b)%float = false)
  ∨ ∃ before b later,
      bids = before ++ b :: later
      ∧ eligible T b
      ∧ st' = mkRound (Some b) (cost_of T b) (score_of T b)
      ∧ (maxScore st <? score_of T b)%float = true
      ∧ (∀ b', b' ∈ before → eligible T b' →
           (score_of T b <? score_of T b')%float = false
           ∧ (is_number (score_of T b') →
              (score_of T b' <? score_of T b)%float = true))
      ∧ (∀ b', b' ∈ later → eligible T b' →
           (score_of T b <? score_of T b')%float = false).
Proof.
  revert st w. induction bids as [|x xs IH]; intros st w; cbv zeta.
  { intros [= <- <-]. left. split; [done|]. intros b Hb. by apply elem_of_nil in Hb. }
  cbn [RunAuction_loop]. unfold_monad.
  destruct (RunAuction_bid tm x st w) as [[e|st1] w1] eqn:Hstep; [discriminate|].
  apply RunAuction_bid_step in Hstep as (Htokens & _ & Hstep).
  intros Hrun. apply IH in Hrun. cbv zeta in Hrun. rewrite Htokens in Hrun.
  set (T := tokens w) in *.
  destruct Hstep as [(Hnot & -> & _)|[Hx ->]].
  { (* x is skipped *)
    destruct Hrun as [[-> Hall]|(before & b & later & -> & Hb & -> & Hlt & Hbefore & Hlater)].
    - left. split; [done|]. intros b [->|Hb]%elem_of_cons; [done|by apply Hall].
    - right. exists (x :: before), b, later. split_and!; try done.
      intros b' [->|Hb']%elem_of_cons; [done|by apply Hbefore]. }
  destruct (maxScore st <? score_of T x)%float eqn:Hmx.
  - (* x becomes the running best *)
    cbn [maxScore] in Hrun.
    destruct Hrun as [[-> Hall]|(before & b & later & -> & Hb & -> & Hlt & Hbefore & Hlater)].
    + right. exists [], x, xs. split_and!; try done.
      intros b' Hb'. by apply elem_of_nil in Hb'.
    + right. exists (x :: before), b, later. split_and!; try done.
      * by eapply ltb_trans.
      * intros b' [->|Hb']%elem_of_cons; [|by apply Hbefore].
        intros _. split; [by apply ltb_asym|done].
  - (* x does not beat the running best *)
    destruct Hrun as [[-> Hall]|(before & b & later & -> & Hb & -> & Hlt & Hbefore & Hlater)].
    + left. split; [done|]. intros b [->|Hb]%elem_of_cons; [done|by apply Hall].
    + right. exists (x :: before), b, later. split_and!; try done.
      intros b' [->|Hb']%elem_of_cons; [|by apply Hbefore].
      intros _. split.
      * destruct (score_of T b <? score_of T x)%float eqn:Hbx; [|done].
        pose proof (ltb_trans _ _ _ Hlt Hbx). congruence.
      * intros Hnum. by eapply ltb_le_lt.
Qed.

Lemma SpendTokens_outcome bid w r w' :
  SpendTokens bid w = (r, w') →
  match r with
  | inr newBalance =>
      ∃ row row',
        account w (TeamID bid) = Some row ∧ account w' (TeamID bid) = Some row'
        ∧ debited bid (computeBidcost bid (ReputationScore row)) row row'
        ∧ newBalance = TokenBalance row'
  | inl e => e ≠ ErrNoWinner ∧ (tokens w' = tokens w ∨ ∃ cause, e = ErrUpdateReputation cause)
  end.
Proof.
  unfold SpendTokens. unfold_monad.
  destruct (GetTokenBalance_spec (TeamID bid) w) as [(o & Hout & ->)|[Hout ->]].
  { intros [= <- <-]. split; [done|]. by left. }
  destruct (account w (TeamID bid)) as [row|] eqn:Hrow; step.
  2:{ intros [= <- <-]. split; [done|]. by left. }
  intros Hrun. apply SpendTokens_settle_settled in Hrun as [Hcase _].
  assert (account (answered w) (TeamID bid) = Some row) as Hrow' by exact Hrow.
  destruct r as [e|nb].
  - inversion Hcase; subst; (split; [done|]); try (by left). right. by eauto.
  - destruct (settled_success bid _ _ (answered w) row _ _ Hrow' Hcase nb eq_refl)
      as (row' & Hafter & Hdebited & ->).
    by exists row, row'.
Qed.

Lemma cost_of_account T bid row :
  T !! GetTokenPK (TeamID bid) = Some row →
  cost_of T bid = computeBidcost bid (ReputationScore row).
Proof. unfold cost_of. by intros ->. Qed.

(** X15: whenever a round (each iteration with its own loop variable)
    returns a team, that team made a bid of the batch that was eligible and
    scored above zero, no eligible bid of the batch scored strictly higher,
    and the team has paid the price of that bid: its balance is lower by
    exactly that price, not negative, and the use of the priority is
    counted. *)
Theorem RunAuction_winner_is_best
    (tm : Manager) (bids : list Bid) (w w' : World) (team : string) :
  RunAuction PerIterationLoopVar tm bids w = (inr team, w') →
  ∃ b row row',
    b ∈ bids ∧ TeamID b = team
    ∧ account w team = Some row
    ∧ cost_of (tokens w) b ≤ TokenBalance row
    ∧ (0 <? score_of (tokens w) b)%float = true
    ∧ (∀ b', b' ∈ bids → eligible (tokens w) b' →
         (score_of (tokens w) b <? score_of (tokens w) b')%float = false)
    ∧ account w' team = Some row'
    ∧ debited b (cost_of (tokens w) b) row row'.
Proof.
  unfold RunAuction. unfold_monad.
  destruct (RunAuction_loop tm bids Round_zero w) as [[e|st] w1] eqn:Hloop;
    [discriminate|].
  pose proof (RunAuction_loop_tokens _ _ _ _ _ _ Hloop) as Htokens.
  apply RunAuction_loop_split in Hloop. cbv zeta in Hloop.
  destruct Hloop as [[-> _]|(before & b & later & -> & Hb & -> & Hpos & Hbefore & Hlater)];
    [discriminate|].
  cbn [winningBid].
  destruct (SpendTokens b w1) as [[e|nb] w2] eqn:Hspend; [discriminate|].
  intros [= <- <-].
  apply SpendTokens_outcome in Hspend as (row & row' & Hrow & Hrow' & Hdebited & _).
  unfold account in Hrow. rewrite Htokens in Hrow.
  exists b, row, row'. rewrite (cost_of_account _ _ _ Hrow).
  destruct Hdebited as [Hle Hrest].
  split_and!; try done.
  - set_solver.
  - intros b' Hb' Hel. apply elem_of_app in Hb' as [Hb'|[->|Hb']%elem_of_cons].
    + by apply Hbefore.
    + apply ltb_irrefl.
    + by apply Hlater.
Qed.

Lemma RunAuction_winner_is_best_witness :
  let bids := [mkBid "A" "user" 3; mkBid "B" "user" 7] in
  ∃ w' b, RunAuction PerIterationLoopVar NewManager bids ledger_AB = (inr "B", w')
          ∧ b ∈ bids ∧ TeamID b = "B"
          ∧ (score_of (tokens ledger_AB) b <? score_of (tokens ledger_AB) (mkBid "A" "user" 3))%float
            = false.
Proof.
  intros bids.
  destruct (RunAuction PerIterationLoopVar NewManager bids ledger_AB) as [r w'] eqn:Hrun.
  assert (r = inr "B") as ->.
  { change r with (fst (r, w')). rewrite <- Hrun. vm_compute. reflexivity. }
  destruct (RunAuction_winner_is_best NewManager bids ledger_AB w' "B" Hrun)
    as (b & row & row' & Hb & Hteam & _ & _ & _ & Hbest & _).
  exists w', b. split; [reflexivity|]. split; [exact Hb|]. split; [exact Hteam|].
  apply Hbest; [by left|].
  exists (mkTokenDBRow 1000 0 100 (Some InitialPriorityUsage) "A" 0 0).
  split; vm_compute; [reflexivity|discriminate].
Defined.

Lemma score_numbers : check_grid score_is_number 1 10 (-1000) 100 = true.
Proof. vm_compute. reflexivity. Qed.

(** X16: the tie-break.  In a round over bids with priorities in 1..10 of
    teams with reputations from -1000 to 100 (each iteration with its own
    loop variable), the team returned is that of one bid of the batch such
    that every eligible bid listed before it scores strictly lower and no
    eligible bid listed after it scores strictly higher: among the best
    eligible bids the first one listed wins. *)
Theorem RunAuction_first_of_the_best_wins
    (tm : Manager) (bids : list Bid) (w w' : World) (team : string) :
  RunAuction PerIterationLoopVar tm bids w = (inr team, w') →
  (∀ b row, b ∈ bids → account w (TeamID b) = Some row →
     1 ≤ Priority b ≤ 10 ∧ -1000 ≤ ReputationScore row ≤ 100) →
  ∃ before b later,
    bids = before ++ b :: later ∧ TeamID b = team
    ∧ (∀ b', b' ∈ before → eligible (tokens w) b' →
         (score_of (tokens w) b' <? score_of (tokens w) b)%float = true)
    ∧ (∀ b', b' ∈ later → eligible (tokens w) b' →
         (score_of (tokens w) b <? score_of (tokens w) b')%float = false).
Proof.
  unfold RunAuction. unfold_monad. intros Hrun Hvalid. revert Hrun.
  destruct (RunAuction_loop tm bids Round_zero w) as [[e|st] w1] eqn:Hloop;
    [discriminate|].
  apply RunAuction_loop_split in Hloop. cbv zeta in Hloop.
  destruct Hloop as [[-> _]|(before & b & later & -> & Hb & -> & Hpos & Hbefore & Hlater)];
    [discriminate|].
  cbn [winningBid].
  destruct (SpendTokens b w1) as [[e|nb] w2] eqn:Hspend; [discriminate|].
  intros [= <- <-].
  exists before, b, later. split_and!; try done.
  intros b' Hb' Hel. apply (Hbefore b' Hb' Hel).
  destruct Hel as (row & Hrow & _).
  destruct (Hvalid b' row) as [Hp Hr]; [set_solver|done|].
  unfold is_number, score_of. rewrite Hrow.
  exact (check_grid_sound score_is_number 1 10 (-1000) 100 _ _ score_numbers Hp Hr).
Qed.

Lemma RunAuction_first_of_the_best_wins_witness :
  let bids := [mkBid "A" "user" 7; mkBid "B" "user" 7] in
  ∃ w' before b later,
    RunAuction PerIterationLoopVar NewManager bids ledger_AB = (inr "A", w')
    ∧ bids = before ++ b :: later ∧ TeamID b = "A".
Proof.
  intros bids.
  destruct (RunAuction PerIterationLoopVar NewManager bids ledger_AB) as [r w'] eqn:Hrun.
  assert (r = inr "A") as ->.
  { change r with (fst (r, w')). rewrite <- Hrun. vm_compute. reflexivity. }
  destruct (RunAuction_first_of_the_best_wins NewManager bids ledger_AB w' "A" Hrun)
    as (before & b & later & Hsplit & Hteam & _).
  - intros b row Hb Hrow.
    assert (Priority b = 7) as -> by (by apply elem_of_cons in Hb as [->|[->|[]%elem_of_nil]%elem_of_cons]).
    assert (ReputationScore row = 100) as ->.
    { apply elem_of_cons in Hb as [->|[->|[]%elem_of_nil]%elem_of_cons];
        vm_compute in Hrow; by injection Hrow as <-. }
    lia.
  - exists w', before, b, later. split; [reflexivity|]. split; [exact Hsplit|exact Hteam].
Defined.

(** X17: a round fails with "no winner" only when no eligible bid of the
    batch scores above zero; the ledger is then untouched. *)
Theorem RunAuction_no_winner
    (lv : LoopVar) (tm : Manager) (bids : list Bid) (w w' : World) :
  RunAuction lv tm bids w = (inl ErrNoWinner, w') →
  tokens w' = tokens w
  ∧ ∀ b, b ∈ bids → eligible (tokens w) b →
         (0 <? score_of (tokens w) b)%float = false.
Proof.
  unfold RunAuction. unfold_monad.
  destruct (RunAuction_loop tm bids Round_zero w) as [[e|st] w1] eqn:Hloop.
  { intros [= -> <-].
    (* the loop does not raise this error *)
    exfalso. revert Hloop. generalize Round_zero. generalize w.
    induction bids as [|x xs IH]; intros w0 st0; [discriminate|].
    cbn [RunAuction_loop]. unfold_monad.
    destruct (RunAuction_bid tm x st0 w0) as [[e|st1] w2] eqn:Hstep; [|by apply IH].
    intros [= -> <-]. revert Hstep. unfold RunAuction_bid. unfold_monad.
    destruct (GetTokenBalance_spec (TeamID x) w0) as [(o & _ & ->)|[_ ->]];
      [discriminate|].
    destruct (account w0 (TeamID x)); [|discriminate]. step.
    match goal with |- context [RecordBid ?b ?c ?s ?w3] =>
      destruct (RecordBid_spec b c s w3) as (br & w4 & -> & _) end. step.
    repeat case_match; discriminate. }
  pose proof (RunAuction_loop_tokens _ _ _ _ _ _ Hloop) as Htokens.
  apply RunAuction_loop_split in Hloop. cbv zeta in Hloop.
  destruct Hloop as [[-> Hall]|(before & b & later & -> & Hb & -> & _)].
  - intros [= <-]. split; [exact Htokens|]. exact Hall.
  - cbn [winningBid].
    match goal with |- context [SpendTokens ?b w1] =>
      destruct (SpendTokens b w1) as [[e|nb] w2] eqn:Hspend end; [|discriminate].
    intros [= -> <-]. apply SpendTokens_outcome in Hspend as [Hne _]. done.
Qed.

Lemma RunAuction_no_winner_witness :
  let w := spend_times 15 (mkBid "A" "user" 10) ledger_A in
  let bid := mkBid "A" "user" 1 in
  ∃ w', RunAuction PerIterationLoopVar NewManager [bid] w = (inl ErrNoWinner, w')
        ∧ tokens w' = tokens w
        ∧ (0 <? score_of (tokens w) bid)%float = false.
Proof.
  intros w bid.
  destruct (RunAuction PerIterationLoopVar NewManager [bid] w) as [r w'] eqn:Hrun.
  assert (r = inl ErrNoWinner) as ->.
  { change r with (fst (r, w')). rewrite <- Hrun. vm_compute. reflexivity. }
  destruct (RunAuction_no_winner _ _ _ _ _ Hrun) as [Htokens Hall].
  exists w'. split; [reflexivity|]. split; [exact Htokens|].
  apply Hall; [by left|].
  assert (∃ row, tokens w !! GetTokenPK (TeamID bid) = Some row
                 ∧ TokenBalance row = 786 ∧ ReputationScore row = 0)
    as (row & Hrow & Hbal & Hrep) by (vm_compute; eauto).
  exists row. split; [exact Hrow|]. rewrite Hbal, Hrep. vm_compute. discriminate.
Defined.

Lemma last_elem_of {A} (l : list A) (d : A) : l ≠ [] → List.last l d ∈ l.
Proof.
  induction l as [|x [|y l] IH]; intros Hne; [done|by left|].
  right. apply IH. discriminate.
Qed.

(** X18: a round debits at most one team.  Items of teams that made no bid
    are never touched; when the round returns a team, every item but that
    team's is as before; and when it fails the whole ledger is as before,
    except when the failure is that of the reputation update that follows
    the winner's debit. *)
Theorem RunAuction_debits_at_most_the_winner
    (lv : LoopVar) (tm : Manager) (bids : list Bid) (w w' : World)
    (r : Error + string) :
  RunAuction lv tm bids w = (r, w') →
  (∀ pk, (∀ b, b ∈ bids → pk ≠ GetTokenPK (TeamID b)) →
         tokens w' !! pk = tokens w !! pk)
  ∧ (∀ team, r = inr team →
       ∀ pk, pk ≠ GetTokenPK team → tokens w' !! pk = tokens w !! pk)
  ∧ (∀ e, r = inl e →
       tokens w' = tokens w ∨ ∃ cause, e = ErrUpdateReputation cause).
Proof.
  unfold RunAuction. unfold_monad.
  destruct (RunAuction_loop tm bids Round_zero w) as [[e|st] w1] eqn:Hloop.
  { apply RunAuction_loop_tokens in Hloop. intros [= <- <-]. rewrite Hloop.
    split_and!; [done|done|]. intros e' _. by left. }
  pose proof (RunAuction_loop_tokens _ _ _ _ _ _ Hloop) as Htokens.
  apply RunAuction_loop_split in Hloop. cbv zeta in Hloop.
  destruct Hloop as [[-> _]|(before & b & later & -> & _ & -> & _)].
  { intros [= <- <-]. rewrite Htokens. split_and!; [done|done|]. intros e' _. by left. }
  cbn [winningBid].
  set (winner := match lv with
                 | SharedLoopVar => List.last (before ++ b :: later) b
                 | PerIterationLoopVar => b
                 end).
  assert (winner ∈ before ++ b :: later) as Hwinner.
  { subst winner. destruct lv; [|set_solver].
    apply last_elem_of. by destruct before. }
  destruct (SpendTokens winner w1) as [[e|nb] w2] eqn:Hspend; intros [= <- <-];
    pose proof (SpendTokens_touches_only_bidder _ _ _ _ Hspend) as (_ & Hframe & _);
    rewrite Htokens in Hframe.
  - split_and!; [|done|].
    + intros pk Hpk. apply Hframe. by apply Hpk.
    + intros e' [= <-]. apply SpendTokens_outcome in Hspend as [_ Hcases].
      by rewrite Htokens in Hcases.
  - split_and!; [| |done].
    + intros pk Hpk. apply Hframe. by apply Hpk.
    + intros team [= <-]. exact Hframe.
Qed.

Lemma RunAuction_debits_at_most_the_winner_witness :
  let bids := [mkBid "A" "user" 3; mkBid "B" "user" 7] in
  let w' := after (RunAuction PerIterationLoopVar NewManager bids) ledger_AB in
  account w' "A" = account ledger_AB "A".
Proof.
  intros bids w'.
  destruct (RunAuction PerIterationLoopVar NewManager bids ledger_AB) as [r w''] eqn:Hrun.
  assert (w' = w'') as -> by (subst w'; unfold after; by rewrite Hrun).
  assert (r = inr "B") as ->.
  { change r with (fst (r, w'')). rewrite <- Hrun. vm_compute. reflexivity. }
  destruct (RunAuction_debits_at_most_the_winner _ _ _ _ _ _ Hrun) as (_ & Hframe & _).
  apply (Hframe "B" eq_refl). discriminate.
Defined.

(** X19: with one loop variable for the whole loop (language versions
    before 1.22), a round that returns a team returns the team of the bid
    listed last, whatever the scores, and it is that team that pays, at the
    price of its own bid. *)
Theorem RunAuction_shared_loop_variable_returns_last
    (tm : Manager) (bids : list Bid) (w w' : World) (team : string) :
  RunAuction SharedLoopVar tm bids w = (inr team, w') →
  ∃ before b row row',
    bids = before ++ [b] ∧ TeamID b = team
    ∧ account w team = Some row ∧ account w' team = Some row'
    ∧ debited b (cost_of (tokens w) b) row row'.
Proof.
  unfold RunAuction. unfold_monad.
  destruct (RunAuction_loop tm bids Round_zero w) as [[e|st] w1] eqn:Hloop;
    [discriminate|].
  pose proof (RunAuction_loop_tokens _ _ _ _ _ _ Hloop) as Htokens.
  apply RunAuction_loop_split in Hloop. cbv zeta in Hloop.
  destruct Hloop as [[-> _]|(before0 & b0 & later & Hbids & _ & -> & _)];
    [discriminate|].
  cbn [winningBid].
  destruct (exists_last (l := bids)) as (before & b & ->); [by destruct before0; subst|].
  rewrite last_last.
  destruct (SpendTokens b w1) as [[e|nb] w2] eqn:Hspend; [discriminate|].
  intros [= <- <-].
  apply SpendTokens_outcome in Hspend as (row & row' & Hrow & Hrow' & Hdebited & _).
  unfold account in Hrow. rewrite Htokens in Hrow.
  exists before, b, row, row'. rewrite (cost_of_account _ _ _ Hrow). by split_and!.
Qed.

Lemma RunAuction_shared_loop_variable_returns_last_witness :
  let bids := [mkBid "A" "user" 9; mkBid "B" "user" 2] in
  ∃ w' before b,
    RunAuction SharedLoopVar NewManager bids ledger_AB = (inr "B", w')
    ∧ bids = before ++ [b] ∧ TeamID b = "B".
Proof.
  intros bids.
  destruct (RunAuction SharedLoopVar NewManager bids ledger_AB) as [r w'] eqn:Hrun.
  assert (r = inr "B") as ->.
  { change r with (fst (r, w')). rewrite <- Hrun. vm_compute. reflexivity. }
  destruct (RunAuction_shared_loop_variable_returns_last _ _ _ _ _ Hrun)
    as (before & b & _ & _ & Hbids & Hteam & _).
  exists w', before, b. split; [reflexivity|]. split; [exact Hbids|exact Hteam].
Defined.

(** ** Rounds that are cut short *)

Lemma RunAuction_loop_app tm l1 l2 st w :
  RunAuction_loop tm (l1 ++ l2) st w
  = match RunAuction_loop tm l1 st w with
    | (inr st1, w1) => RunAuction_loop tm l2 st1 w1
    | (inl e, w1) => (inl e, w1)
    end.
Proof.
  revert st w. induction l1 as [|x l1 IH]; intros st w; [reflexivity|].
  cbn [app RunAuction_loop]. unfold_monad.
  destruct (RunAuction_bid tm x st w) as [[e|st1] w1]; [reflexivity|apply IH].
Qed.

(** With the store available, bids of existing teams that are eligible, or
    skipped by a manager that has a logger, are processed without error. *)
Lemma RunAuction_loop_available tm bids st w :
  available w →
  (∀ b, b ∈ bids → eligible (tokens w) b
                   ∨ is_Some (account w (TeamID b)) ∧ is_Some (logger tm)) →
  ∃ st' w', RunAuction_loop tm bids st w = (inr st', w')
            ∧ tokens w' = tokens w ∧ available w'.
Proof.
  revert st w. induction bids as [|x xs IH]; intros st w Hav Hall; [by exists st, w|].
  cbn [RunAuction_loop]. unfold_monad.
  assert (∃ st1 w1, RunAuction_bid tm x st w = (inr st1, w1)
                    ∧ tokens w1 = tokens w ∧ available w1) as (st1 & w1 & -> & Ht & Hav1).
  { destruct (Hall x) as [(row & Hrow & Hle)|[[row Hrow] [l Hl]]]; [by left| |].
    - destruct (RunAuction_bid_eligible tm x st w row Hav Hrow Hle) as (w1 & -> & ?).
      by eexists _, w1.
    - unfold RunAuction_bid. unfold_monad.
      rewrite (GetTokenBalance_ok _ _ row Hav Hrow). step.
      match goal with |- context [RecordBid ?b ?c ?s ?w0] =>
        destruct (RecordBid_ok b c s w0) as (br & w2 & -> & _ & Htokens & Hav2 & _);
          [by apply available_answered|] end. step.
      rewrite Hl. repeat case_match; by eexists _, w2. }
  destruct (IH st1 w1 Hav1) as (st' & w' & -> & Ht' & Hav').
  { intros b Hb. rewrite Ht. unfold account. rewrite Ht. apply Hall. by right. }
  exists st', w'. split; [done|]. split; [congruence|done].
Qed.

(** X20: a bid of an unknown team ends the round.  With the store
    available, when the bids listed before it are processed without error
    (eligible, or skipped by a manager that has a logger), the round fails
    with "team not found" for that team, whatever follows in the batch, and
    no account is debited. *)
Theorem RunAuction_unknown_team_aborts
    (lv : LoopVar) (tm : Manager) (before : list Bid) (b : Bid) (later : list Bid)
    (w : World) :
  available w →
  (∀ b', b' ∈ before → eligible (tokens w) b'
                       ∨ is_Some (account w (TeamID b')) ∧ is_Some (logger tm)) →
  account w (TeamID b) = None →
  ∃ w', RunAuction lv tm (before ++ b :: later) w = (inl (ErrTeamNotFound (TeamID b)), w')
        ∧ tokens w' = tokens w.
Proof.
  intros Hav Hbefore Hnone. unfold RunAuction. unfold_monad.
  rewrite RunAuction_loop_app.
  destruct (RunAuction_loop_available tm before Round_zero w Hav Hbefore)
    as (st1 & w1 & -> & Htokens & Hav1).
  cbn [RunAuction_loop]. unfold_monad. unfold RunAuction_bid. unfold_monad.
  destruct (GetTokenBalance_spec (TeamID b) w1) as [(o & Hout & _)|[_ ->]].
  { apply available_head in Hav1. rewrite Hout in Hav1. by destruct Hav1. }
  unfold account in *. rewrite Htokens, Hnone.
  eexists. split; [reflexivity|]. unfold answered. world_simpl. exact Htokens.
Qed.

Lemma RunAuction_unknown_team_aborts_witness :
  let before := [mkBid "A" "user" 9] in
  let b := mkBid "Z" "user" 5 in
  (available ledger_AB ∧ account ledger_AB "Z" = None)
  ∧ ∃ w', RunAuction PerIterationLoopVar NewManager (before ++ b :: [mkBid "B" "user" 2])
            ledger_AB = (inl (ErrTeamNotFound "Z"), w')
          ∧ tokens w' = tokens ledger_AB.
Proof.
  intros before b.
  assert (available ledger_AB) as Hav by (apply available_nil; reflexivity).
  assert (account ledger_AB (TeamID b) = None) as Hnone by (vm_compute; reflexivity).
  split; [by split|].
  apply (RunAuction_unknown_team_aborts PerIterationLoopVar NewManager before b
           [mkBid "B" "user" 2] ledger_AB Hav); [|exact Hnone].
  intros b' Hb'. left. apply list_elem_of_singleton in Hb' as ->.
  exists (mkTokenDBRow 1000 0 100 (Some InitialPriorityUsage) "A" 0 0).
  split; vm_compute; [reflexivity|discriminate].
Defined.

(** X21: the manager NewManager returns has no logger.  With the store
    available, when a round run by such a manager meets the first bid that
    its team cannot pay, after eligible bids only, the round ends in a nil
    pointer panic: the bid has been recorded, nobody is debited and no
    winner is returned, whatever follows in the batch. *)
Theorem RunAuction_panics_on_unaffordable_bid
    (lv : LoopVar) (tm : Manager) (before : list Bid) (b : Bid) (later : list Bid)
    (w : World) (row : TokenDBRow) :
  logger tm = None →
  available w →
  (∀ b', b' ∈ before → eligible (tokens w) b') →
  account w (TeamID b) = Some row →
  TokenBalance row < computeBidcost b (ReputationScore row) →
  ∃ w' br,
    RunAuction lv tm (before ++ b :: later) w = (inl PanicNilLogger, w')
    ∧ tokens w' = tokens w
    ∧ records br b (computeBidcost b (ReputationScore row))
        (calculateScore (Priority b) (ReputationScore row))
    ∧ bids w' !! (Pk br, Sk br) = Some br.
Proof.
  intros Hnil Hav Hbefore Hrow Hshort. unfold RunAuction. unfold_monad.
  rewrite RunAuction_loop_app.
  destruct (RunAuction_loop_available tm before Round_zero w Hav) as (st1 & w1 & -> & Ht & Hav1).
  { intros b' Hb'. left. by apply Hbefore. }
  cbn [RunAuction_loop]. unfold_monad. unfold RunAuction_bid. unfold_monad.
  assert (account w1 (TeamID b) = Some row) as Hrow1 by (unfold account; by rewrite Ht).
  rewrite (GetTokenBalance_ok _ _ row Hav1 Hrow1). step.
  match goal with |- context [RecordBid ?b ?c ?s ?w0] =>
    destruct (RecordBid_ok b c s w0) as (br & w2 & -> & Hbr & Htokens & _ & Hbids);
      [by apply available_answered|] end. step.
  apply Z.ltb_lt in Hshort. rewrite Hshort, Hnil.
  exists w2, br. split; [reflexivity|]. split; [|by split].
  rewrite Htokens. unfold answered. world_simpl. exact Ht.
Qed.

Lemma RunAuction_panics_on_unaffordable_bid_witness :
  let w := spend_times 36 (mkBid "A" "user" 10) ledger_AB in
  let b := mkBid "A" "user" 10 in
  let row := mkTokenDBRow 8 0 (-200) (Some (<[10 := 35]> InitialPriorityUsage)) "A" 0 0 in
  (available w ∧ account w "A" = Some row
   ∧ TokenBalance row < computeBidcost b (ReputationScore row))
  ∧ fst (RunAuction PerIterationLoopVar NewManager ([] ++ b :: [mkBid "B" "user" 1]) w)
    = inl PanicNilLogger.
Proof.
  intros w b row.
  assert (available w) as Hav by (apply available_nil; vm_compute; reflexivity).
  assert (account w (TeamID b) = Some row) as Hrow by (vm_compute; reflexivity).
  assert (TokenBalance row < computeBidcost b (ReputationScore row)) as Hshort
    by (vm_compute; reflexivity).
  split; [split; [exact Hav|split; [exact Hrow|exact Hshort]]|].
  destruct (RunAuction_panics_on_unaffordable_bid PerIterationLoopVar NewManager [] b
              [mkBid "B" "user" 1] w row eq_refl Hav) as (w' & br & -> & _);
    [|exact Hrow|exact Hshort|reflexivity].
  intros b' Hb'. exfalso. exact (not_elem_of_nil b' Hb').
Defined.
